(** * Falltergeist ACM container: streaming decoder file

    A shallow embedding of [Falltergeist::Format::Acm::File], the
    streaming ACM decoder (second unit of src/Format/Int/File.cpp):
    header parsing in the constructor, the block refill
    [_makeNewSamples], the pull reader [readSamples] and [rewind], with
    the value unpacker, the subband decoder and the byte stream as
    collaborators. *)

From Stdlib Require Import ZArith List Lia Bool.
From Stdlib Require Import String.
From Stdlib Require Import Strings.Byte.
Import ListNotations.
Local Open Scope Z_scope.

(** ** Fixed-width integers

    The C++ fields are [int32_t], [int16_t] and [uint16_t]; they are
    carried as [Z] with the two's-complement wrap-around written out. *)

Module FixedWidth.

Definition to_uint16 (x : Z) : Z := x mod 2 ^ 16.
Definition to_uint32 (x : Z) : Z := x mod 2 ^ 32.
Definition to_int16 (x : Z) : Z := (x + 2 ^ 15) mod 2 ^ 16 - 2 ^ 15.
Definition to_int32 (x : Z) : Z := (x + 2 ^ 31) mod 2 ^ 32 - 2 ^ 31.

(** Conversion of a signed value to the 64-bit [size_t]. *)
Definition to_size_t (x : Z) : Z := x mod 2 ^ 64.

Definition in_int16 (x : Z) : Prop := - 2 ^ 15 <= x < 2 ^ 15.
Definition in_int32 (x : Z) : Prop := - 2 ^ 31 <= x < 2 ^ 31.
Definition in_uint16 (x : Z) : Prop := 0 <= x < 2 ^ 16.
Definition in_uint32 (x : Z) : Prop := 0 <= x < 2 ^ 32.

End FixedWidth.
Import FixedWidth.

(** ** The byte stream collaborator *)

Module Stream.

Inductive ENDIANNESS : Type := LITTLE | BIG.

(** Modelled from the spec: the byte stream [Dat::Stream], of which
    the container only sees the interface.  It is an in-memory buffer
    with a cursor and an endianness mode; a read that runs past the end
    of the buffer is a stream failure, which propagates to the caller. *)
Record t : Type := mk {
  data : list byte;
  position : nat;
  endianness : ENDIANNESS
}.

Definition size (s : t) : nat := List.length (data s).

Definition setPosition (pos : nat) (s : t) : t :=
  {| data := data s; position := pos; endianness := endianness s |}.

Definition setEndianness (e : ENDIANNESS) (s : t) : t :=
  {| data := data s; position := position s; endianness := e |}.

(** A computation that reads from the stream: it fails with [None] or
    yields a value and the advanced stream. *)
Definition Reader (A : Type) : Type := t -> option (A * t).

Definition ret {A : Type} (a : A) : Reader A := fun s => Some (a, s).

Definition bind {A B : Type} (m : Reader A) (k : A -> Reader B) : Reader B :=
  fun s => match m s with
           | Some (a, s') => k a s'
           | None => None
           end.

(** [readBytes(dst, n)]: the next [n] bytes, in stream order. *)
Definition readBytes (n : nat) : Reader (list byte) :=
  fun s =>
    if (position s + n <=? size s)%nat
    then Some (firstn n (skipn (position s) (data s)),
               setPosition (position s + n) s)
    else None.

(** The unsigned integer whose little-endian bytes are [bs]. *)
Fixpoint le_value (bs : list byte) : Z :=
  match bs with
  | [] => 0
  | b :: rest => Z.of_N (Byte.to_N b) + 256 * le_value rest
  end.

(** Typed reads: the bytes are taken in stream order and swapped when
    the stream is in big-endian mode. *)
Definition ordered (e : ENDIANNESS) (bs : list byte) : list byte :=
  match e with
  | LITTLE => bs
  | BIG => rev bs
  end.

Definition uint32 : Reader Z :=
  fun s => bind (readBytes 4) (fun bs => ret (le_value (ordered (endianness s) bs))) s.

Definition uint16 : Reader Z :=
  fun s => bind (readBytes 2) (fun bs => ret (le_value (ordered (endianness s) bs))) s.

(** [uint8()]: the next byte. *)
Definition uint8 : Reader byte :=
  fun s => bind (readBytes 1)
             (fun bs => match bs with
                        | b :: _ => ret b
                        | [] => fun _ => None
                        end) s.

(** [skipBytes(n)] moves the cursor like [setPosition], without a read. *)
Definition skipBytes (n : nat) (s : t) : t := setPosition (position s + n) s.

(** The bytes and the integer a typed read finds at an offset. *)
Definition bytes_at (offset width : nat) (s : t) : list byte :=
  firstn width (skipn offset (data s)).

Definition value_at (offset width : nat) (s : t) : Z :=
  le_value (ordered (endianness s) (bytes_at offset width s)).

End Stream.

Notation "'let*' x ':=' m 'in' k" := (Stream.bind m (fun x => k))
  (at level 10, x name, m at level 100, k at level 200).

(** ** Header *)

Module Acm.

Import Stream.

Definition HEADER_SIZE : nat := 14.

(** Modelled from the spec: the [Header] struct of Acm/General.h, with
    the field widths of the container layout (4, 4, 2 and 2 bytes,
    unsigned). *)
Module Header.
Record t : Type := mk {
  signature : Z;
  samples : Z;
  channels : Z;
  rate : Z
}.
End Header.

(** The reads of the constructor, in order: the four header fields
    with the stream's typed reads, then two raw bytes copied into the
    [int16_t tmpword] (the host is little-endian). *)
Definition read_header : Reader (Header.t * Z) :=
  let* sig := uint32 in
  let* smp := uint32 in
  let* chn := uint16 in
  let* rt := uint16 in
  let* raw := readBytes 2 in
  ret (Header.mk sig smp chn rt, to_int16 (le_value raw)).

(** ** Collaborators

    The value unpacker and the subband decoder are separate classes
    (Acm/Unpacker, Acm/Decoder) and the signature constant comes from
    Acm/General.h; the container only calls them.  They are taken as
    a parameter of the development.

    The unpacker is built with a pointer to the file's own stream and
    reads the payload through it: [getOneBlock] therefore receives the
    file's stream and returns the cursor it leaves behind, so that the
    stream stays one shared object.  Both collaborators write through
    the raw pointer [_block.data()]: they return the new contents of
    the buffer, whose number of slots they cannot change. *)
Record Codec : Type := {
  IP_ACM_SIG : Z;
  ValueUnpacker : Type;
  Decoder : Type;
  (** [ValueUnpacker(levels, subblocks, &stream)] followed by [init()] *)
  unpacker_init : Z -> Z -> option ValueUnpacker;
  unpacker_reset : ValueUnpacker -> ValueUnpacker;
  getOneBlock :
    ValueUnpacker -> Stream.t -> list Z -> bool * ValueUnpacker * nat * list Z;
  (** [Decoder(levels)] followed by [init()] *)
  decoder_init : Z -> option Decoder;
  decodeData : Decoder -> list Z -> Z -> Decoder * list Z;
  getOneBlock_length : forall u s b,
    List.length (snd (getOneBlock u s b)) = List.length b;
  decodeData_length : forall d b n,
    List.length (snd (decodeData d b n)) = List.length b
}.

(** The stream as the constructor prepares it before the first read:
    [setPosition(0)], [setEndianness(LITTLE)]. *)
Definition opened (stream : Stream.t) : Stream.t :=
  setEndianness LITTLE (setPosition 0 stream).

(** What construction can throw. *)
Inductive Failure : Type :=
| Exception (what : String.string)   (* Falltergeist::Exception *)
| length_error                       (* std::length_error of vector::resize *)
| stream_failure.                    (* a failed read of the byte stream *)

(** The format error of a stream that is not an ACM container. *)
Definition invalid_signature : Failure :=
  Exception "Not an ACM file - invalid signature"%string.

(** [std::vector<int32_t>::resize] on an empty vector: the requested
    size is a [size_t]; beyond [max_size()] the call throws, otherwise
    the vector holds that many zero slots. *)
Definition max_size : Z := 2 ^ 61 - 1.

Definition resize (n : Z) : option (list Z) :=
  if n <=? max_size then Some (repeat 0 (Z.to_nat n)) else None.

Section File.

Variable K : Codec.

(** The object state.  [_values] is the pointer into [_block], kept
    as the index of the slot it points to; the constructor leaves it
    unset and nothing reads it before the first refill assigns it. *)
Record File : Type := mkFile {
  _stream : Stream.t;
  _samplesLeft : Z;
  _levels : Z;
  _subblocks : Z;
  _blockSize : Z;
  _block : list Z;
  _values : nat;
  _samplesReady : Z;
  _unpacker : ValueUnpacker K;
  _decoder : Decoder K;
  _samples : Z;
  _channels : Z;
  _bitrate : Z
}.

Definition construct (stream : Stream.t) : Failure + File :=
  match read_header (opened stream) with
  | None => inl stream_failure
  | Some (hdr, tmpword, s1) =>
      let subblocks := to_int32 (Z.shiftr tmpword 4) in
      let levels := to_int32 (Z.land tmpword 15) in
      if negb (Header.signature hdr =? IP_ACM_SIG K)
      then inl (Exception "Not an ACM file - invalid signature"%string)
      else
        let smp := to_int32 (Header.samples hdr) in
        let blockSize := to_int32 (Z.shiftl 1 levels * subblocks) in
        match resize (to_size_t blockSize) with
        | None => inl length_error
        | Some block =>
            match unpacker_init K levels subblocks with
            | None => inl (Exception "Cannot create or init unpacker"%string)
            | Some u =>
                match decoder_init K levels with
                | None => inl (Exception "Cannot create or init decoder"%string)
                | Some d =>
                    inr {| _stream := s1;
                           _samplesLeft := smp;
                           _levels := levels;
                           _subblocks := subblocks;
                           _blockSize := blockSize;
                           _block := block;
                           _values := 0%nat;
                           _samplesReady := 0;
                           _unpacker := u;
                           _decoder := d;
                           _samples := smp;
                           _channels := to_int32 (Header.channels hdr);
                           _bitrate := to_int32 (Header.rate hdr) |}
                end
            end
        end
  end.

(** The constructor statement by statement, with the members as they
    are assigned on the way.  [Geometry] is the object under
    construction once [_subblocks] and [_levels] are assigned: the
    stream is positioned and in little-endian mode, the header and the
    geometry word are read, the signature has not been looked at. *)
Record Geometry : Type := mkGeometry {
  g_hdr : Header.t;
  g_tmpword : Z;
  g_stream : Stream.t;
  g_subblocks : Z;
  g_levels : Z
}.

Definition read_geometry (stream : Stream.t) : option Geometry :=
  match read_header (opened stream) with
  | None => None
  | Some (hdr, tmpword, s1) =>
      Some {| g_hdr := hdr;
              g_tmpword := tmpword;
              g_stream := s1;
              g_subblocks := to_int32 (Z.shiftr tmpword 4);
              g_levels := to_int32 (Z.land tmpword 15) |}
  end.

(** The test [hdr.signature != IP_ACM_SIG]. *)
Definition check_signature (g : Geometry) : bool :=
  negb (Header.signature (g_hdr g) =? IP_ACM_SIG K).

(** The value assigned to [_blockSize]. *)
Definition block_size (g : Geometry) : Z :=
  to_int32 (Z.shiftl 1 (g_levels g) * g_subblocks g).

(** [_block.resize(_blockSize)]: the [int32_t] is converted to the
    [size_t] that [resize] takes. *)
Definition allocate (g : Geometry) : option (list Z) :=
  resize (to_size_t (block_size g)).

(** The rest of the constructor, once the buffer is there. *)
Definition complete (g : Geometry) (block : list Z) : Failure + File :=
  match unpacker_init K (g_levels g) (g_subblocks g) with
  | None => inl (Exception "Cannot create or init unpacker"%string)
  | Some u =>
      match decoder_init K (g_levels g) with
      | None => inl (Exception "Cannot create or init decoder"%string)
      | Some d =>
          inr {| _stream := g_stream g;
                 _samplesLeft := to_int32 (Header.samples (g_hdr g));
                 _levels := g_levels g;
                 _subblocks := g_subblocks g;
                 _blockSize := block_size g;
                 _block := block;
                 _values := 0%nat;
                 _samplesReady := 0;
                 _unpacker := u;
                 _decoder := d;
                 _samples := to_int32 (Header.samples (g_hdr g));
                 _channels := to_int32 (Header.channels (g_hdr g));
                 _bitrate := to_int32 (Header.rate (g_hdr g)) |}
      end
  end.

Definition construct_steps (stream : Stream.t) : Failure + File :=
  match read_geometry stream with
  | None => inl stream_failure
  | Some g =>
      if check_signature g
      then inl (Exception "Not an ACM file - invalid signature"%string)
      else
        match allocate g with
        | None => inl length_error
        | Some block => complete g block
        end
  end.

Definition rewind (f : File) : File :=
  {| _stream := setPosition HEADER_SIZE (_stream f);
     _samplesLeft := _samples f;
     _levels := _levels f;
     _subblocks := _subblocks f;
     _blockSize := _blockSize f;
     _block := _block f;
     _values := _values f;
     _samplesReady := 0;
     _unpacker := unpacker_reset K (_unpacker f);
     _decoder := _decoder f;
     _samples := _samples f;
     _channels := _channels f;
     _bitrate := _bitrate f |}.

(** The state after the call to [getOneBlock]: the unpacker, the
    shared stream cursor and the buffer are as it left them. *)
Definition after_unpack (f : File) (u : ValueUnpacker K) (pos : nat)
    (b : list Z) : File :=
  {| _stream := setPosition pos (_stream f);
     _samplesLeft := _samplesLeft f;
     _levels := _levels f;
     _subblocks := _subblocks f;
     _blockSize := _blockSize f;
     _block := b;
     _values := _values f;
     _samplesReady := _samplesReady f;
     _unpacker := u;
     _decoder := _decoder f;
     _samples := _samples f;
     _channels := _channels f;
     _bitrate := _bitrate f |}.

Definition _makeNewSamples (f : File) : Z * File :=
  match getOneBlock K (_unpacker f) (_stream f) (_block f) with
  | (false, u, pos, b) => (0, after_unpack f u pos b)
  | (true, u, pos, b) =>
      let (d, b') := decodeData K (_decoder f) b (_subblocks f) in
      let ready :=
        if _blockSize f >? _samplesLeft f then _samplesLeft f else _blockSize f in
      (1, {| _stream := setPosition pos (_stream f);
             _samplesLeft := to_int32 (_samplesLeft f - ready);
             _levels := _levels f;
             _subblocks := _subblocks f;
             _blockSize := _blockSize f;
             _block := b';
             _values := 0%nat;
             _samplesReady := ready;
             _unpacker := u;
             _decoder := d;
             _samples := _samples f;
             _channels := _channels f;
             _bitrate := _bitrate f |})
  end.

(** The slot under [_values], shifted right by [_levels], cast to
    [short] and stored into the [uint16_t] the caller's buffer holds. *)
Definition sample16 (levels x : Z) : Z :=
  to_uint16 (to_int16 (Z.shiftr x levels)).

(** The four statements that follow the write: [_values++],
    [buffer++], [res += 1], [_samplesReady--]. *)
Definition advance (f : File) : File :=
  {| _stream := _stream f;
     _samplesLeft := _samplesLeft f;
     _levels := _levels f;
     _subblocks := _subblocks f;
     _blockSize := _blockSize f;
     _block := _block f;
     _values := S (_values f);
     _samplesReady := to_int32 (_samplesReady f - 1);
     _unpacker := _unpacker f;
     _decoder := _decoder f;
     _samples := _samples f;
     _channels := _channels f;
     _bitrate := _bitrate f |}.

(** The body of the loop after the refill test: write one sample,
    move on and run the rest of the loop [rest].  A read through
    [_values] outside the block buffer has no defined behaviour: the
    model stops with [None] there. *)
Definition emit (rest : File -> option (list Z * File)) (g : File)
    : option (list Z * File) :=
  match nth_error (_block g) (_values g) with
  | None => None
  | Some x =>
      match rest (advance g) with
      | None => None
      | Some (out, g') => Some (sample16 (_levels g) x :: out, g')
      end
  end.

(** [readSamples(buffer, count)].  The result is the list of values
    written to [buffer[0..res)] with the state left behind; [res] is
    the length of that list. *)
Fixpoint readSamples (f : File) (count : nat) {struct count}
    : option (list Z * File) :=
  match count with
  | O => Some ([], f)
  | S n =>
      if _samplesReady f =? 0 then
        if _samplesLeft f =? 0 then Some ([], f)
        else
          let (made, f1) := _makeNewSamples f in
          if made =? 0 then Some ([], f1)
          else emit (fun g => readSamples g n) f1
      else emit (fun g => readSamples g n) f
  end.

Definition samples (f : File) : Z := _samples f.
Definition channels (f : File) : Z := _channels f.
Definition bitrate (f : File) : Z := _bitrate f.
Definition samplesLeft (f : File) : Z := _samplesLeft f.

End File.

Arguments _stream {K} f.
Arguments _samplesLeft {K} f.
Arguments _levels {K} f.
Arguments _subblocks {K} f.
Arguments _blockSize {K} f.
Arguments _block {K} f.
Arguments _values {K} f.
Arguments _samplesReady {K} f.
Arguments _unpacker {K} f.
Arguments _decoder {K} f.
Arguments _samples {K} f.
Arguments _channels {K} f.
Arguments _bitrate {K} f.
Arguments rewind {K} f.
Arguments after_unpack {K} f u pos b.
Arguments _makeNewSamples {K} f.
Arguments advance {K} f.
Arguments emit {K} rest g.
Arguments readSamples {K} f count.
Arguments samples {K} f.
Arguments channels {K} f.
Arguments bitrate {K} f.
Arguments samplesLeft {K} f.

(** ** Vocabulary of the streaming properties *)

Section Streaming.

Context {K : Codec}.

(** What holds of every object the constructor returns and is kept by
    every operation: the buffer has [_blockSize] slots and the counters
    are in the range of their type. *)
Record well_formed (f : File K) : Prop := {
  wf_blockSize : 0 <= _blockSize f < 2 ^ 31;
  wf_block : List.length (_block f) = Z.to_nat (_blockSize f);
  wf_samplesLeft : in_int32 (_samplesLeft f);
  wf_samplesReady : in_int32 (_samplesReady f);
  wf_samples : in_int32 (_samples f)
}.

(** The accounting of a stream with a usable geometry and a sample
    count that fits the signed counters: the buffered samples lie inside
    the block buffer and, with the samples still to be decoded, never
    exceed the total. *)
Record accounted (f : File K) : Prop := {
  acc_blockSize : 0 < _blockSize f < 2 ^ 31;
  acc_block : List.length (_block f) = Z.to_nat (_blockSize f);
  acc_ready : 0 <= _samplesReady f;
  acc_left : 0 <= _samplesLeft f;
  acc_total : _samplesReady f + _samplesLeft f <= _samples f;
  acc_samples : _samples f < 2 ^ 31;
  acc_cursor : Z.of_nat (_values f) + _samplesReady f <= _blockSize f
}.

(** [n] samples taken out of the buffer. *)
Fixpoint consume (n : nat) (f : File K) : File K :=
  match n with
  | O => f
  | S m => consume m (advance f)
  end.

(** The 16-bit values of the next [n] buffered slots, in buffer order. *)
Definition buffered (n : nat) (f : File K) : list Z :=
  map (sample16 (_levels f)) (firstn n (skipn (_values f) (_block f))).

(** A sequence of calls on the object; the result collects everything
    written to the callers' buffers. *)
Inductive Call : Type :=
| ReadSamples (count : nat)
| Rewind.

Fixpoint run (f : File K) (calls : list Call) : option (list Z * File K) :=
  match calls with
  | [] => Some ([], f)
  | ReadSamples count :: rest =>
      match readSamples f count with
      | None => None
      | Some (out, f1) =>
          match run f1 rest with
          | None => None
          | Some (out', f2) => Some (out ++ out', f2)
          end
      end
  | Rewind :: rest => run (rewind f) rest
  end.

(** A sequence of [readSamples] calls only. *)
Definition readMany (f : File K) (counts : list nat) : option (list Z * File K) :=
  run f (map ReadSamples counts).

(** The payload holds [n] more blocks: [n] refills in a row succeed. *)
Fixpoint payload_blocks (n : nat) (u : ValueUnpacker K) (s : Stream.t)
    (b : list Z) (d : Decoder K) (subblocks : Z) : bool :=
  match n with
  | O => true
  | S m =>
      match getOneBlock K u s b with
      | (true, u', pos, b') =>
          let (d', b'') := decodeData K d b' subblocks in
          payload_blocks m u' (setPosition pos s) b'' d' subblocks
      | (false, _, _, _) => false
      end
  end.

Definition well_formed_payload (n : nat) (f : File K) : Prop :=
  payload_blocks n (_unpacker f) (_stream f) (_block f) (_decoder f)
    (_subblocks f) = true.

(** The states the collaborators of an object constructed as [f0] can
    be in: the unpacker is as [init] left it, or was [reset], or has
    unpacked a block from the object's stream into a buffer of the
    object's size; the decoder is as [init] left it or has decoded such
    a buffer. *)
Inductive unpacker_state (f0 : File K) : ValueUnpacker K -> Prop :=
| unpacker_initial : unpacker_state f0 (_unpacker f0)
| unpacker_after_reset (u : ValueUnpacker K) :
    unpacker_state f0 u -> unpacker_state f0 (unpacker_reset K u)
| unpacker_after_block (u : ValueUnpacker K) (p : nat) (b : list Z) :
    unpacker_state f0 u ->
    List.length b = List.length (_block f0) ->
    unpacker_state f0
      (snd (fst (fst (getOneBlock K u (setPosition p (_stream f0)) b)))).

Inductive decoder_state (f0 : File K) : Decoder K -> Prop :=
| decoder_initial : decoder_state f0 (_decoder f0)
| decoder_after_block (d : Decoder K) (b : list Z) :
    decoder_state f0 d ->
    List.length b = List.length (_block f0) ->
    decoder_state f0 (fst (decodeData K d b (_subblocks f0))).

(** A block refill of the object depends neither on the state the
    decoder carries nor on the previous contents of the buffer: from
    the same unpacker state and stream position, [getOneBlock] reports
    the same, leaves the same unpacker and cursor, and when it succeeds
    [decodeData] leaves the same buffer, whatever the buffer held and
    whichever state the decoder was in. *)
Definition refill_independent (f0 : File K) : Prop :=
  forall (u : ValueUnpacker K) (d1 d2 : Decoder K) (p : nat) (b1 b2 : list Z),
    unpacker_state f0 u -> decoder_state f0 d1 -> decoder_state f0 d2 ->
    List.length b1 = List.length (_block f0) ->
    List.length b2 = List.length (_block f0) ->
    let s := setPosition p (_stream f0) in
    fst (getOneBlock K u s b1) = fst (getOneBlock K u s b2) /\
    (fst (fst (fst (getOneBlock K u s b1))) = true ->
     snd (decodeData K d1 (snd (getOneBlock K u s b1)) (_subblocks f0))
     = snd (decodeData K d2 (snd (getOneBlock K u s b2)) (_subblocks f0))).


(** What no call changes: the bytes and the mode of the stream, the
    geometry, the totals and the number of buffer slots. *)
Record unchanged (f g : File K) : Prop := {
  same_data : data (_stream g) = data (_stream f);
  same_endianness : endianness (_stream g) = endianness (_stream f);
  same_levels : _levels g = _levels f;
  same_subblocks : _subblocks g = _subblocks f;
  same_blockSize : _blockSize g = _blockSize f;
  same_samples : _samples g = _samples f;
  same_channels : _channels g = _channels f;
  same_bitrate : _bitrate g = _bitrate f;
  same_length : List.length (_block g) = List.length (_block f)
}.



End Streaming.


(** The header fields as byte ranges of the container. *)
Definition field (offset width : nat) (bytes : list byte) : Z :=
  le_value (firstn width (skipn offset bytes)).

(** ** Two small codecs

    Instances of the collaborator interface on which the container can
    be run. *)
Module Sample.

Definition byte_value (b : byte) : Z := Z.of_N (Byte.to_N b).

(** Modelled from the spec: the value unpacker [Acm::ValueUnpacker],
    as far as the container relies on it: [getOneBlock] consumes the
    payload through the shared stream, fills the buffer and reports
    failure at the end of the stream; its state evolves from block to
    block and [reset] puts it back to what [init] left.  This instance
    takes one payload byte per buffer slot and counts the blocks it
    delivered. *)
Definition bytes_getOneBlock (u : nat) (s : Stream.t) (b : list Z)
    : bool * nat * nat * list Z :=
  match readBytes (List.length b) s with
  | Some (bs, s') => (true, S u, position s', map byte_value bs)
  | None => (false, u, position s, b)
  end.

Lemma bytes_getOneBlock_length (u : nat) (s : Stream.t) (b : list Z) :
  List.length (snd (bytes_getOneBlock u s b)) = List.length b.
Proof.
  unfold bytes_getOneBlock, readBytes, size.
  destruct (position s + List.length b <=? List.length (data s))%nat eqn:E;
    [ | reflexivity ].
  apply Nat.leb_le in E. cbn [snd].
  rewrite length_map, length_firstn, length_skipn. lia.
Qed.

(** Modelled from the spec: a subband decoder [Acm::Decoder] that
    keeps nothing from one block to the next: the buffer is left as
    unpacked.  The signature constant is the one of ACM containers. *)
Definition plain : Codec :=
  {| IP_ACM_SIG := 0x01032897;
     ValueUnpacker := nat;
     Decoder := unit;
     unpacker_init := fun _ _ => Some 0%nat;
     unpacker_reset := fun _ => 0%nat;
     getOneBlock := bytes_getOneBlock;
     decoder_init := fun _ => Some tt;
     decodeData := fun d b _ => (d, b);
     getOneBlock_length := bytes_getOneBlock_length;
     decodeData_length := fun _ _ _ => eq_refl |}.











(** A container of 50 samples, one channel, 22050 Hz, geometry word
    0x0043, followed by 64 payload bytes. *)
Definition header_bytes : list byte :=
  [x97; x28; x03; x01;  x32; x00; x00; x00;  x01; x00;  x22; x56;  x43; x00].

Definition payload_bytes : list byte :=
  flat_map (fun _ => [x10; x28; xf0; x07]) (seq 0 16).

Definition container : Stream.t :=
  Stream.mk (header_bytes ++ payload_bytes) 0 BIG.


(** The same container with bit 15 of the geometry word set. *)
Definition negative_geometry : Stream.t :=
  Stream.mk (firstn 12 header_bytes ++ [x43; x80] ++ payload_bytes) 0 BIG.


(** The same container with the sample count 0x80000005. *)
Definition signed_count : Stream.t :=
  Stream.mk (firstn 4 header_bytes ++ [x05; x00; x00; x80]
             ++ skipn 8 header_bytes ++ payload_bytes) 0 BIG.

(** The same container with the geometry word 0x0003: three levels and
    no subblock. *)
Definition empty_geometry : Stream.t :=
  Stream.mk (firstn 12 header_bytes ++ [x03; x00] ++ payload_bytes) 0 BIG.

(** The objects the codecs build from [container]. *)
Definition fresh : File plain :=
  {| _stream := Stream.mk (header_bytes ++ payload_bytes) 14 LITTLE;
     _samplesLeft := 50;
     _levels := 3;
     _subblocks := 4;
     _blockSize := 32;
     _block := repeat 0 32;
     _values := 0%nat;
     _samplesReady := 0;
     _unpacker := (0%nat : ValueUnpacker plain);
     _decoder := (tt : Decoder plain);
     _samples := 50;
     _channels := 1;
     _bitrate := 22050 |}.





(** The plain object after a call for 40 samples. *)
Definition paused : File plain :=
  match readSamples fresh 40 with
  | Some (_, f) => f
  | None => fresh
  end.

End Sample.

End Acm.

(** * Compiled script files

    A shallow embedding of [Falltergeist::Format::Int::File] (first unit
    of src/Format/Int/File.cpp): the constructor, which parses the
    procedures table, the identifiers table and the strings table, and
    the lookups on the parsed object. *)

Module Int.

Import Stream.

(** [std::map<unsigned int, std::string>]: the entries in ascending key
    order; [insert] leaves the map alone when the key is present and
    [at] throws [std::out_of_range] (here [None]) when it is absent. *)
Definition Table : Type := list (Z * list byte).

Fixpoint insert (key : Z) (name : list byte) (m : Table) : Table :=
  match m with
  | [] => [(key, name)]
  | (k, v) :: rest =>
      if key <? k then (key, name) :: m
      else if key =? k then m
      else (k, v) :: insert key name rest
  end.

Fixpoint map_at (key : Z) (m : Table) : option (list byte) :=
  match m with
  | [] => None
  | (k, v) :: rest => if key =? k then Some v else map_at key rest
  end.

(** The [Procedure] objects the parser fills: a record of the values
    handed to the setters, [name()] being what [setName] stored; a new
    procedure has an empty name. *)
Record Procedure : Type := mkProcedure {
  name : list byte;
  flags : Z;
  delay : Z;
  conditionOffset : Z;
  bodyOffset : Z;
  argumentsCounter : Z
}.

Definition setName (n : list byte) (p : Procedure) : Procedure :=
  {| name := n;
     flags := flags p;
     delay := delay p;
     conditionOffset := conditionOffset p;
     bodyOffset := bodyOffset p;
     argumentsCounter := argumentsCounter p |}.

Inductive Failure : Type :=
| out_of_range      (* std::out_of_range of map::at and vector::at *)
| stream_failure.   (* a failed read of the byte stream *)

Record File : Type := mkFile {
  _stream : Stream.t;
  _procedures : list Procedure;
  _identifiers : Table;
  _strings : Table
}.

(** The loop over the procedures table: six 32-bit reads per procedure;
    the name offsets go to a vector of their own. *)
Fixpoint read_procedures (count : nat) : Reader (list Z * list Procedure) :=
  match count with
  | O => ret ([], [])
  | S n =>
      let* nameOffset := uint32 in
      let* fl := uint32 in
      let* dl := uint32 in
      let* co := uint32 in
      let* bo := uint32 in
      let* ac := uint32 in
      let* rest := read_procedures n in
      ret (nameOffset :: fst rest, mkProcedure [] fl dl co bo ac :: snd rest)
  end.

(** The inner loop of a table: [nameLength] bytes, of which the non-zero
    ones are pushed to the name. *)
Fixpoint read_name (nameLength : nat) : Reader (list byte) :=
  match nameLength with
  | O => ret []
  | S n =>
      let* ch := uint8 in
      let* rest := read_name n in
      ret (if Byte.eqb ch x00 then rest else ch :: rest)
  end.

(** The [while (j < tableSize)] loop of the identifiers and of the
    strings table; [j] and [nameOffset] are 32-bit unsigned.  Every turn
    reads at least two bytes, so the loop ends with the stream at the
    latest; [fuel] bounds the number of turns and [None] as a result
    says that the bound was reached. *)
Fixpoint read_table (fuel : nat) (tableSize j : Z) (m : Table)
    : Reader (option Table) :=
  if j <? tableSize then
    match fuel with
    | O => ret None
    | S fuel' =>
        let* nameLength := uint16 in
        let j2 := to_uint32 (j + 2) in
        let nameOffset := to_uint32 (j2 + 4) in
        let* name := read_name (Z.to_nat nameLength) in
        read_table fuel' tableSize (to_uint32 (j2 + nameLength))
          (insert nameOffset name m)
    end
  else ret (Some m).

(** A whole table, with a bound that the remaining bytes justify. *)
Definition table (tableSize : Z) : Reader Table :=
  fun s =>
    match read_table (S (size s - position s)) tableSize 0 [] s with
    | Some (Some m, s') => Some (m, s')
    | _ => None
    end.

(** The loop that names the procedures:
    [_procedures.at(i).setName(_identifiers.at(procedureNameOffsets.at(i)))]. *)
Fixpoint set_names (ids : Table) (offsets : list Z) (procs : list Procedure)
    : option (list Procedure) :=
  match offsets, procs with
  | [], _ => Some procs
  | _ :: _, [] => None
  | o :: os, p :: ps =>
      match map_at o ids with
      | None => None
      | Some n =>
          match set_names ids os ps with
          | None => None
          | Some ps' => Some (setName n p :: ps')
          end
      end
  end.

(** The reads up to the end of the identifiers table. *)
Definition read_tables : Reader (list Z * list Procedure * Table) :=
  let* proceduresCount := uint32 in
  let* procs := read_procedures (Z.to_nat proceduresCount) in
  let* tableSize := uint32 in
  let* ids := table tableSize in
  ret (procs, ids).

Definition construct (stream : Stream.t) : Failure + File :=
  match read_tables (setPosition 42 (setPosition 0 stream)) with
  | None => inl stream_failure
  | Some (offsets, procs, ids, s1) =>
      let s2 := skipBytes 4 s1 in
      match set_names ids offsets procs with
      | None => inl out_of_range
      | Some named =>
          match uint32 s2 with
          | None => inl stream_failure
          | Some (stringsTable, s3) =>
              if negb (stringsTable =? 0xFFFFFFFF) then
                match table stringsTable s3 with
                | None => inl stream_failure
                | Some (strs, s4) =>
                    inr {| _stream := s4; _procedures := named;
                           _identifiers := ids; _strings := strs |}
                end
              else
                inr {| _stream := s3; _procedures := named;
                       _identifiers := ids; _strings := [] |}
          end
      end
  end.

Definition identifiers (f : File) : Table := _identifiers f.
Definition strings (f : File) : Table := _strings f.
Definition procedures (f : File) : list Procedure := _procedures f.

Definition readOpcode (f : File) : option (Z * File) :=
  match uint16 (_stream f) with
  | None => None
  | Some (v, s) =>
      Some (v, {| _stream := s; _procedures := _procedures f;
                  _identifiers := _identifiers f; _strings := _strings f |})
  end.

Definition readValue (f : File) : option (Z * File) :=
  match uint32 (_stream f) with
  | None => None
  | Some (v, s) =>
      Some (v, {| _stream := s; _procedures := _procedures f;
                  _identifiers := _identifiers f; _strings := _strings f |})
  end.

(** [procedure(name)]: the first procedure of that name, or [nullptr]. *)
Fixpoint find_procedure (procs : list Procedure) (n : list byte)
    : option Procedure :=
  match procs with
  | [] => None
  | p :: rest =>
      if list_eq_dec byte_eq_dec (name p) n then Some p
      else find_procedure rest n
  end.

Definition procedure (f : File) (n : list byte) : option Procedure :=
  find_procedure (_procedures f) n.

(** The procedure record of the table whose 24 bytes start at
    [offset], before it is named. *)
Definition procedure_at (offset : nat) (s : Stream.t) : Procedure :=
  {| name := [];
     flags := value_at (offset + 4) 4 s;
     delay := value_at (offset + 8) 4 s;
     conditionOffset := value_at (offset + 12) 4 s;
     bodyOffset := value_at (offset + 16) 4 s;
     argumentsCounter := value_at (offset + 20) 4 s |}.

Definition nonzero (b : byte) : bool := negb (Byte.eqb b x00).

(** The non-zero bytes of the name whose first byte is at [offset] and
    whose 16-bit length is in the two bytes before. *)
Definition name_at (offset : nat) (s : Stream.t) : list byte :=
  filter nonzero (bytes_at offset (Z.to_nat (value_at (offset - 2) 2 s)) s).

(** The entries of a table whose contents start at offset [start] and
    whose declared size is [tableSize], by their distance from [start]:
    the first one at 0 when the table is not empty, and after an entry
    the next one, two bytes of length and the name further, as long as
    that is below the declared size. *)
Definition next_entry (start : nat) (s : Stream.t) (j : nat) : nat :=
  j + 2 + Z.to_nat (value_at (start + j) 2 s).

Inductive entry_from (start : nat) (s : Stream.t) (tableSize : Z) (j0 : nat)
    : nat -> Prop :=
| entry_here : entry_from start s tableSize j0 j0
| entry_next (j : nat) :
    entry_from start s tableSize j0 j ->
    Z.of_nat (next_entry start s j) < tableSize ->
    entry_from start s tableSize j0 (next_entry start s j).

Definition entry (start : nat) (s : Stream.t) (tableSize : Z) (j : nat) : Prop :=
  0 < tableSize /\ entry_from start s tableSize 0 j.

(** Where a table ends: at its start when it is empty, else behind its
    last entry, the one whose end is not below the declared size. *)
Definition table_end (start : nat) (s : Stream.t) (tableSize : Z) (j : nat) : Prop :=
  tableSize <= Z.of_nat j /\
  (tableSize <= 0 /\ j = 0%nat \/
   exists i, entry start s tableSize i /\ j = next_entry start s i).

(** A script with two procedures, [start] and [run], and one string. *)
Module Sample.

Definition script_bytes : list byte :=
  repeat x00 42 ++
  [x00; x00; x00; x02] ++
  [x00; x00; x00; x06;  x00; x00; x00; x01;  x00; x00; x00; x00;
   x00; x00; x00; x00;  x00; x00; x00; x64;  x00; x00; x00; x00] ++
  [x00; x00; x00; x0e;  x00; x00; x00; x00;  x00; x00; x00; x05;
   x00; x00; x00; x00;  x00; x00; x00; xc8;  x00; x00; x00; x02] ++
  [x00; x00; x00; x0e] ++
  [x00; x06;  x73; x74; x61; x72; x74; x00] ++
  [x00; x04;  x72; x75; x6e; x00] ++
  [xff; xff; xff; xff] ++
  [x00; x00; x00; x06] ++
  [x00; x04;  x68; x69; x00; x00].

Definition script : Stream.t := Stream.mk script_bytes 7 BIG.

(** The same script, whose second procedure names an offset that is not
    in the identifiers table. *)
Definition unnamed_script : Stream.t :=
  Stream.mk (firstn 73 script_bytes ++ [x0f] ++ skipn 74 script_bytes) 0 BIG.

End Sample.

End Int.

(** * Platform helpers

    A shallow embedding of the data-file discovery and of the directory
    creation of [Falltergeist::CrossPlatform] (its POSIX branches).  The
    file system and the process environment are what the functions are
    run against; the static members that cache the answers are the
    state they thread. *)

Module CrossPlatform.

Local Open Scope string_scope.

(** What the functions ask of the platform: the working directory, the
    data directories of [getDataPaths], the mounted CD drives (or the
    exception of a platform without detection), which files exist and
    what [opendir]/[readdir] list for a directory, in listing order. *)
Record Platform : Type := {
  executableDirectory : string;
  dataPaths : list string;
  cdDrivePaths : string + list string;
  file_exists : string -> bool;
  directory_entries : string -> option (list string)
}.

(** The static members. *)
Record Statics : Type := {
  _falloutDataPath : string;
  _dataFiles : list string
}.

Definition _necessaryDatFiles : list string := ["master.dat"; "critter.dat"]%list.

(** [::tolower] in the C locale. *)
Definition tolower (c : Ascii.ascii) : Ascii.ascii :=
  let n := Ascii.nat_of_ascii c in
  if ((65 <=? n) && (n <=? 90))%nat then Ascii.ascii_of_nat (n + 32) else c.

Fixpoint lowercase (s : string) : string :=
  match s with
  | EmptyString => EmptyString
  | String c rest => String (tolower c) (lowercase rest)
  end.

Definition all_exist (P : Platform) (directory : string) : bool :=
  forallb (fun file => file_exists P (directory ++ "/" ++ file)) _necessaryDatFiles.

(** [findFalloutDataPath]: the cached answer when there is one; else the
    first candidate directory that holds every necessary file, which is
    then cached.  The result is the thrown message or the path. *)
Definition findFalloutDataPath (P : Platform) (st : Statics)
    : (string + string) * Statics :=
  if (0 <? String.length (_falloutDataPath st))%nat
  then (inr (_falloutDataPath st), st)
  else
    let directories :=
      (executableDirectory P :: dataPaths P ++
       match cdDrivePaths P with
       | inr drives => drives
       | inl _ => []
       end)%list in
    match find (all_exist P) directories with
    | Some directory =>
        (inr directory,
         {| _falloutDataPath := directory; _dataFiles := _dataFiles st |})
    | None => (inl "Fallout data files are not found!", st)
    end.

(** One turn of the [readdir] loop of [findFalloutDataFiles]. *)
Definition keep_patch (dataFiles : list string) (d_name : string) : list string :=
  let filename := lowercase d_name in
  if (4 <? String.length filename)%nat then
    let ext := substring (String.length filename - 4) 4 filename in
    if (ext =? ".dat") then
      if ((String.length filename =? 12)%nat && (substring 0 5 filename =? "patch"))
      then (filename :: dataFiles)%list
      else dataFiles
    else dataFiles
  else dataFiles.

(** [findFalloutDataFiles]: the cached list when it is not empty; else
    the necessary files, with the patch files of the data directory put
    in front of them one by one. *)
Definition findFalloutDataFiles (P : Platform) (st : Statics)
    : (string + list string) * Statics :=
  match _dataFiles st with
  | (_ :: _)%list => (inr (_dataFiles st), st)
  | []%list =>
      match findFalloutDataPath P st with
      | (inl what, st1) => (inl what, st1)
      | (inr path, st1) =>
          match directory_entries P path with
          | None =>
              match findFalloutDataPath P st1 with
              | (inl what, st2) => (inl what, st2)
              | (inr path2, st2) =>
                  (inl ("Can't open data directory: " ++ path2), st2)
              end
          | Some entries =>
              let files := fold_left keep_patch entries _necessaryDatFiles in
              (inr files,
               {| _falloutDataPath := _falloutDataPath st1; _dataFiles := files |})
          end
      end
  end.

(** The test a lower-cased file name passes to count as a patch file. *)
Definition is_patch (filename : string) : bool :=
  ((4 <? String.length filename)%nat &&
   (substring (String.length filename - 4) 4 filename =? ".dat") &&
   (String.length filename =? 12)%nat &&
   (substring 0 5 filename =? "patch")).

(** What [_createDirectory] asks of the file system: [stat] (whether the
    path exists and, if so, whether it is a directory) and [mkdir] (the
    new file system, or the text of [strerror (errno)]). *)
Record FileSystem : Type := {
  FS : Type;
  stat : string -> FS -> option bool;
  mkdir : string -> FS -> string + FS
}.

(** [_createDirectory]: [false] for a directory that is there, [true]
    for one that was made, and the thrown message otherwise. *)
Definition _createDirectory (F : FileSystem) (dir : string) (fs : FS F)
    : (string + bool) * FS F :=
  match stat F dir fs with
  | Some true => (inr false, fs)
  | Some false =>
      (inl ("Path `" ++ dir ++ "' already exists and is not a directory"), fs)
  | None =>
      match mkdir F dir fs with
      | inr fs' => (inr true, fs')
      | inl what => (inl what, fs)
      end
  end.

Definition NUL : Ascii.ascii := Ascii.zero.

Definition slash : Ascii.ascii := Ascii.ascii_of_nat 47.

(** [std::string::find_first_of (c, pos)], [None] for [npos]. *)
Fixpoint find_first_of (c : Ascii.ascii) (pos : nat) (s : string) : option nat :=
  match s with
  | EmptyString => None
  | String x rest =>
      match pos with
      | O => if Ascii.eqb x c then Some O else option_map S (find_first_of c O rest)
      | S pos' => option_map S (find_first_of c pos' rest)
      end
  end.

(** [s[i] = c], for an index inside the string. *)
Fixpoint set_char (i : nat) (c : Ascii.ascii) (s : string) : string :=
  match s with
  | EmptyString => EmptyString
  | String x rest =>
      match i with
      | O => String c rest
      | S i' => String x (set_char i' c rest)
      end
  end.

(** What a reader of [s.c_str ()] sees: the characters before the first
    NUL. *)
Fixpoint c_str (s : string) : string :=
  match s with
  | EmptyString => EmptyString
  | String x rest => if Ascii.eqb x NUL then EmptyString else String x (c_str rest)
  end.

(** The [for] loop of [createDirectory] and the call after it.  The
    outer [None] is the loop out of fuel; the inner option is the
    message of an exception. *)
Fixpoint create_loop (F : FileSystem) (fuel : nat) (path : string)
    (dirDelim : option nat) (fs : FS F) : option (option string * FS F) :=
  match dirDelim with
  | None =>
      match _createDirectory F (c_str path) fs with
      | (inl what, fs') => Some (Some what, fs')
      | (inr _, fs') => Some (None, fs')
      end
  | Some d =>
      match fuel with
      | O => None
      | S fuel' =>
          let path := set_char d NUL path in
          match _createDirectory F (c_str path) fs with
          | (inl what, fs') => Some (Some what, fs')
          | (inr _, fs') =>
              let path := set_char d slash path in
              create_loop F fuel' path (find_first_of slash (d + 1) path) fs'
          end
      end
  end.

Definition createDirectory (F : FileSystem) (path : string) (fs : FS F)
    : option (option string * FS F) :=
  create_loop F (String.length path) path (find_first_of slash 1 path) fs.

(** The non-empty beginnings of [done ++ rest] that end just before a
    [/] of [rest]. *)
Fixpoint ancestors_from (done rest : string) : list string :=
  match rest with
  | EmptyString => []
  | String x rest' =>
      ((if Ascii.eqb x slash && negb (done =? "") then [done] else [])
       ++ ancestors_from (done ++ String x "") rest')%list
  end.

Definition ancestors (path : string) : list string := ancestors_from "" path.

(** [_createDirectory] on each name in turn, up to the first exception. *)
Fixpoint create_all (F : FileSystem) (dirs : list string) (fs : FS F)
    : option string * FS F :=
  match dirs with
  | []%list => (None, fs)
  | (dir :: rest)%list =>
      match _createDirectory F dir fs with
      | (inl what, fs') => (Some what, fs')
      | (inr _, fs') => create_all F rest fs'
      end
  end.

(** A data directory as it may be listed, and a platform around it. *)
Module Sample.

Definition listing : list string :=
  ["."; ".."; "MASTER.DAT"; "Patch000.dat"; "critter.dat"; "patch001.DAT";
   "patches.dat"; "patch002.bak"]%list.

Definition platform : Platform :=
  {| executableDirectory := "/opt/falltergeist";
     dataPaths := ["/home/user/.local/share/falltergeist"; "/usr/share/falltergeist"]%list;
     cdDrivePaths := inl "CD-ROM detection not supported";
     file_exists := fun path =>
       (path =? "/usr/share/falltergeist/master.dat") ||
       (path =? "/usr/share/falltergeist/critter.dat") ||
       (path =? "/opt/falltergeist/master.dat");
     directory_entries := fun path =>
       if path =? "/usr/share/falltergeist" then Some listing else None |}.

Definition cold : Statics := {| _falloutDataPath := ""; _dataFiles := []%list |}.

(** A machine on which nothing is installed. *)
Definition bare : Platform :=
  {| executableDirectory := "/tmp";
     dataPaths := []%list;
     cdDrivePaths := inr []%list;
     file_exists := fun _ => false;
     directory_entries := fun _ => None |}.

(** A file system of directories only, where [mkdir] always works. *)
Definition directories : FileSystem :=
  {| FS := list string;
     stat := fun dir fs => if existsb (String.eqb dir) fs then Some true else None;
     mkdir := fun dir fs => inr (dir :: fs)%list |}.

(** A file system with one regular file, [/var/lib]. *)
Definition with_a_file : FileSystem :=
  {| FS := list string;
     stat := fun dir fs =>
       if dir =? "/var/lib" then Some false
       else if existsb (String.eqb dir) fs then Some true else None;
     mkdir := fun dir fs => inr (dir :: fs)%list |}.

End Sample.

End CrossPlatform.

(** * Properties *)

Import Stream Acm.

(** ** Fixed-width arithmetic *)

Lemma to_int32_id (x : Z) : in_int32 x -> to_int32 x = x.
Proof.
  unfold in_int32, to_int32; intros H.
  rewrite Z.mod_small; lia.
Qed.

Lemma to_int16_range (x : Z) : in_int16 (to_int16 x).
Proof.
  unfold in_int16, to_int16.
  pose proof (Z.mod_pos_bound (x + 2 ^ 15) (2 ^ 16)); lia.
Qed.

Lemma to_int32_range (x : Z) : in_int32 (to_int32 x).
Proof.
  unfold in_int32, to_int32.
  pose proof (Z.mod_pos_bound (x + 2 ^ 31) (2 ^ 32)); lia.
Qed.

Lemma to_int16_congr (x : Z) : to_int16 x mod 2 ^ 16 = x mod 2 ^ 16.
Proof.
  unfold to_int16.
  rewrite Zminus_mod, Zmod_mod, <- Zminus_mod.
  f_equal; lia.
Qed.

Lemma to_int16_negative (x : Z) :
  in_uint16 x -> Z.testbit x 15 = true -> to_int16 x = x - 2 ^ 16.
Proof.
  unfold in_uint16, to_int16; intros Hx Hbit.
  assert (2 ^ 15 <= x).
  { destruct (Z_lt_le_dec x (2 ^ 15)) as [Hlt | ]; [ | assumption ].
    rewrite (Z.testbit_eqb x 15), (Z.div_small x (2 ^ 15)) in Hbit by lia.
    discriminate. }
  replace (x + 2 ^ 15) with (x - 2 ^ 15 + 1 * 2 ^ 16) by lia.
  rewrite Z_mod_plus_full, Z.mod_small; lia.
Qed.

Lemma to_int16_positive (x : Z) :
  in_uint16 x -> 0 <= to_int16 x -> to_int16 x = x.
Proof.
  unfold in_uint16, to_int16; intros Hx Hpos.
  destruct (Z_lt_le_dec x (2 ^ 15)) as [Hlt | Hge].
  - rewrite Z.mod_small; lia.
  - replace (x + 2 ^ 15) with (x - 2 ^ 15 + 1 * 2 ^ 16) in * by lia.
    rewrite Z_mod_plus_full, Z.mod_small in Hpos by lia. lia.
Qed.

(** ** The geometry word *)

Lemma land_15 (w : Z) : Z.land w 15 = w mod 16.
Proof. exact (Z.land_ones w 4 ltac:(lia)). Qed.

Lemma shiftr_4 (w : Z) : Z.shiftr w 4 = w / 16.
Proof. exact (Z.shiftr_div_pow2 w 4 ltac:(lia)). Qed.

Lemma levels_of_word (w : Z) :
  to_int32 (Z.land w 15) = Z.land w 15 /\ 0 <= Z.land w 15 <= 15.
Proof.
  rewrite land_15.
  pose proof (Z.mod_pos_bound w 16).
  split; [ apply to_int32_id; unfold in_int32 | ]; lia.
Qed.

Lemma subblocks_of_word (w : Z) :
  in_int16 w ->
  to_int32 (Z.shiftr w 4) = Z.shiftr w 4 /\ - 2048 <= Z.shiftr w 4 <= 2047.
Proof.
  unfold in_int16; intros Hw. rewrite shiftr_4.
  assert (- 2048 <= w / 16 <= 2047).
  { split; [ apply Z.div_le_lower_bound | apply Z.lt_succ_r, Z.div_lt_upper_bound ]; lia. }
  split; [ apply to_int32_id; unfold in_int32 | ]; lia.
Qed.

Lemma pow2_levels (l : Z) : 0 <= l <= 15 -> 1 <= Z.shiftl 1 l <= 2 ^ 15.
Proof.
  intros Hl. rewrite Z.shiftl_1_l. split.
  - change 1 with (2 ^ 0). apply Z.pow_le_mono_r; lia.
  - apply Z.pow_le_mono_r; lia.
Qed.

Lemma blockSize_of_geometry (l s : Z) :
  0 <= l <= 15 -> - 2048 <= s <= 2047 ->
  to_int32 (Z.shiftl 1 l * s) = Z.shiftl 1 l * s.
Proof.
  intros Hl Hs. pose proof (pow2_levels l Hl) as Hp.
  apply to_int32_id; unfold in_int32.
  change (2 ^ 15) with 32768 in Hp. change (2 ^ 31) with 2147483648. nia.
Qed.

Lemma resize_spec (n : Z) :
  in_int32 n ->
  resize (to_size_t n) = if n <? 0 then None else Some (repeat 0 (Z.to_nat n)).
Proof.
  unfold in_int32, resize, to_size_t, max_size; intros Hn.
  destruct (n <? 0) eqn:E.
  - apply Z.ltb_lt in E.
    replace n with (n + 2 ^ 64 + (-1) * 2 ^ 64) by lia.
    rewrite Z_mod_plus_full, Z.mod_small by lia.
    destruct (n + 2 ^ 64 <=? 2 ^ 61 - 1) eqn:E'; [ apply Z.leb_le in E'; lia | reflexivity ].
  - apply Z.ltb_ge in E.
    rewrite Z.mod_small by lia.
    destruct (n <=? 2 ^ 61 - 1) eqn:E'; [ reflexivity | apply Z.leb_gt in E'; lia ].
Qed.

(** ** Reading the header *)

Lemma byte_value_range (b : byte) : 0 <= Z.of_N (Byte.to_N b) < 256.
Proof. pose proof (Byte.to_N_bounded b); lia. Qed.

Lemma le_value_range (bs : list byte) :
  0 <= le_value bs < 256 ^ Z.of_nat (List.length bs).
Proof.
  induction bs as [ | b rest IH ]; [ cbn; lia | ].
  cbn [le_value List.length]. rewrite Nat2Z.inj_succ, Z.pow_succ_r by lia.
  pose proof (byte_value_range b). nia.
Qed.

Lemma field_2_range (offset : nat) (bytes : list byte) :
  in_uint16 (field offset 2 bytes).
Proof.
  unfold field, in_uint16.
  pose proof (le_value_range (firstn 2 (skipn offset bytes))) as H.
  pose proof (length_firstn 2 (skipn offset bytes)) as L.
  assert (256 ^ Z.of_nat (List.length (firstn 2 (skipn offset bytes))) <= 256 ^ 2)
    by (apply Z.pow_le_mono_r; lia).
  change (2 ^ 16) with (256 ^ 2). lia.
Qed.

Lemma field_4_range (offset : nat) (bytes : list byte) :
  in_uint32 (field offset 4 bytes).
Proof.
  unfold field, in_uint32.
  pose proof (le_value_range (firstn 4 (skipn offset bytes))) as H.
  pose proof (length_firstn 4 (skipn offset bytes)) as L.
  assert (256 ^ Z.of_nat (List.length (firstn 4 (skipn offset bytes))) <= 256 ^ 4)
    by (apply Z.pow_le_mono_r; lia).
  change (2 ^ 32) with (256 ^ 4). lia.
Qed.

Lemma read_header_complete (stream : Stream.t) :
  (14 <= size stream)%nat ->
  read_header (opened stream) =
    Some (Header.mk (field 0 4 (data stream)) (field 4 4 (data stream))
                    (field 8 2 (data stream)) (field 10 2 (data stream)),
          to_int16 (field 12 2 (data stream)),
          setPosition 14 (opened stream)).
Proof.
  destruct stream as [d p e]; unfold size, opened; cbn [data].
  intros H.
  do 14 (destruct d as [ | ? d ]; [ cbn in H; lia | ]).
  reflexivity.
Qed.

Lemma read_header_short (stream : Stream.t) :
  (size stream < 14)%nat -> read_header (opened stream) = None.
Proof.
  destruct stream as [d p e]; unfold size, opened; cbn [data].
  intros H.
  do 14 (destruct d as [ | ? d ]; [ reflexivity | ]).
  cbn in H; lia.
Qed.

(** ** Construction *)

(** On a stream that holds the whole header the wrap-arounds of the
    constructor are the identity and the requested buffer size decides
    whether [resize] throws. *)
Lemma construct_complete (K : Codec) (stream : Stream.t) :
  (14 <= size stream)%nat ->
  construct K stream =
    let d := data stream in
    let tmpword := to_int16 (field 12 2 d) in
    let subblocks := Z.shiftr tmpword 4 in
    let levels := Z.land tmpword 15 in
    let blockSize := Z.shiftl 1 levels * subblocks in
    if negb (field 0 4 d =? IP_ACM_SIG K) then inl invalid_signature
    else if blockSize <? 0 then inl length_error
    else
      match unpacker_init K levels subblocks with
      | None => inl (Exception "Cannot create or init unpacker"%string)
      | Some u =>
          match decoder_init K levels with
          | None => inl (Exception "Cannot create or init decoder"%string)
          | Some dec =>
              inr {| _stream := setPosition 14 (opened stream);
                     _samplesLeft := to_int32 (field 4 4 d);
                     _levels := levels;
                     _subblocks := subblocks;
                     _blockSize := blockSize;
                     _block := repeat 0 (Z.to_nat blockSize);
                     _values := 0%nat;
                     _samplesReady := 0;
                     _unpacker := u;
                     _decoder := dec;
                     _samples := to_int32 (field 4 4 d);
                     _channels := field 8 2 d;
                     _bitrate := field 10 2 d |}
          end
      end.
Proof.
  intros Hsize. unfold construct.
  rewrite (read_header_complete stream Hsize). cbv zeta. cbn [Header.signature
    Header.samples Header.channels Header.rate].
  pose proof (to_int16_range (field 12 2 (data stream))) as Hw.
  destruct (levels_of_word (to_int16 (field 12 2 (data stream)))) as [El Hl].
  destruct (subblocks_of_word _ Hw) as [Es Hs].
  rewrite El, Es, (blockSize_of_geometry _ _ Hl Hs).
  rewrite resize_spec.
  2:{ rewrite <- (blockSize_of_geometry _ _ Hl Hs). apply to_int32_range. }
  pose proof (field_2_range 8 (data stream)) as Hc.
  pose proof (field_2_range 10 (data stream)) as Hr.
  rewrite (to_int32_id (field 8 2 (data stream))), (to_int32_id (field 10 2 (data stream))).
  2,3: unfold in_int32, in_uint16 in *; lia.
  destruct (negb (field 0 4 (data stream) =? IP_ACM_SIG K)); [ reflexivity | ].
  destruct (Z.shiftl 1 _ * _ <? 0); reflexivity.
Qed.

Lemma construct_short (K : Codec) (stream : Stream.t) :
  (size stream < 14)%nat -> construct K stream = inl stream_failure.
Proof.
  intros Hsize. unfold construct.
  now rewrite (read_header_short stream Hsize).
Qed.

(** A non-negative block size comes from a geometry word whose sign bit
    is clear. *)
Lemma geometry_word_positive (w : Z) :
  in_uint16 w ->
  0 <= Z.shiftl 1 (Z.land (to_int16 w) 15) * Z.shiftr (to_int16 w) 4 ->
  to_int16 w = w.
Proof.
  intros Hw Hbs. apply to_int16_positive; [ assumption | ].
  destruct (levels_of_word (to_int16 w)) as [_ Hl].
  pose proof (pow2_levels _ Hl) as Hp.
  rewrite shiftr_4 in Hbs.
  destruct (Z_lt_le_dec (to_int16 w) 0) as [Hneg | ]; [ exfalso | assumption ].
  assert (to_int16 w / 16 < 0) by (apply Z.div_lt_upper_bound; lia).
  nia.
Qed.

(** C1 (as the code has it).  A constructed decoder takes [levels] from
    the low 4 bits of the 16-bit geometry word and [subblocks] from the
    word shifted right by 4; [blockSize] is [(1 << levels) * subblocks]
    of those two values; [channels] and [bitrate] return the header
    fields, and [samples] returns the header's sample count read as a
    signed 32-bit value (the count itself when it is below 2^31). *)
Theorem constructed_geometry_and_fields (K : Codec) (stream : Stream.t) (f : File K) :
  construct K stream = inr f ->
  let word := field 12 2 (data stream) in
  _levels f = Z.land word 15 /\
  _subblocks f = Z.shiftr word 4 /\
  _blockSize f = Z.shiftl 1 (_levels f) * _subblocks f /\
  samples f = to_int32 (field 4 4 (data stream)) /\
  (field 4 4 (data stream) < 2 ^ 31 -> samples f = field 4 4 (data stream)) /\
  channels f = field 8 2 (data stream) /\
  bitrate f = field 10 2 (data stream).
Proof.
  intros Hc word.
  destruct (le_lt_dec 14 (size stream)) as [Hsize | Hshort].
  2:{ rewrite (construct_short K stream Hshort) in Hc; discriminate. }
  rewrite (construct_complete K stream Hsize) in Hc. cbv zeta in Hc.
  destruct (negb _); [ discriminate | ].
  destruct (_ <? 0) eqn:Hbs; [ discriminate | ].
  apply Z.ltb_ge in Hbs.
  pose proof (field_2_range 12 (data stream)) as Hw.
  rewrite (geometry_word_positive _ Hw Hbs) in Hc. fold word in Hc.
  destruct (unpacker_init K _ _); [ | discriminate ].
  destruct (decoder_init K _); [ | discriminate ].
  injection Hc as <-. unfold samples, channels, bitrate.
  cbn [_levels _subblocks _blockSize _samples _channels _bitrate].
  repeat split.
  pose proof (field_4_range 4 (data stream)) as Hs.
  intros Hlt. apply to_int32_id. unfold in_int32, in_uint32 in *; lia.
Qed.

Lemma constructed_geometry_and_fields_witness :
  exists f : File Sample.plain,
    construct Sample.plain Sample.container = inr f /\
    _levels f = 3 /\ _subblocks f = 4 /\ _blockSize f = 32 /\
    samples f = 50 /\ channels f = 1 /\ bitrate f = 22050.
Proof.
  destruct (construct Sample.plain Sample.container) as [e | f] eqn:E;
    [ vm_compute in E; discriminate | ].
  exists f. split; [ reflexivity | ].
  destruct (constructed_geometry_and_fields Sample.plain Sample.container f E)
    as (Hl & Hs & Hb & _ & Hn & Hc & Hr).
  rewrite Hb, Hl, Hs, (Hn ltac:(vm_compute; reflexivity)), Hc, Hr.
  vm_compute. repeat split.
Defined.

(** C1 as the specification words it fails: on the sample container,
    whose geometry word is 0x0043, the decoder has [levels = 3] and
    [subblocks = 4], not the high nibble 4 and the low nibble 3. *)
Lemma geometry_nibbles_counterexample :
  exists f : File Sample.plain,
    construct Sample.plain Sample.container = inr f /\
    ~ (_levels f = Z.shiftr (field 12 2 (data Sample.container)) 4 /\
       _subblocks f = Z.land (field 12 2 (data Sample.container)) 15).
Proof.
  eexists; split; [ vm_compute; reflexivity | ].
  intros [H _]; vm_compute in H; discriminate.
Qed.




(** The constructor is its statements one after the other. *)
Lemma construct_in_steps (K : Codec) (stream : Stream.t) :
  construct K stream = construct_steps K stream.
Proof.
  unfold construct, construct_steps, read_geometry.
  destruct (read_header (opened stream)) as [[[hdr tmpword] s1] | ]; reflexivity.
Qed.

(** C10.  The geometry word is held in a signed 16-bit integer and
    split with an arithmetic shift: on a header whose geometry word has
    bit 15 set, [tmpword] is the word less 65536, the value assigned to
    [_subblocks] is negative and the value assigned to [_blockSize] is
    negative.  Nothing looks at these values: whatever the geometry,
    the statement after the signature test is the [resize] of the
    buffer to [_blockSize], and on such a header that request is what
    fails; this is the only way the constructor throws
    [std::length_error]. *)
Theorem negative_geometry_unchecked (K : Codec) (stream : Stream.t) :
  (14 <= size stream)%nat ->
  exists g,
    read_geometry stream = Some g /\
    Header.signature (g_hdr g) = field 0 4 (data stream) /\
    (Z.testbit (field 12 2 (data stream)) 15 = true ->
     g_tmpword g = field 12 2 (data stream) - 2 ^ 16 /\
     g_tmpword g < 0 /\
     g_subblocks g = Z.shiftr (g_tmpword g) 4 /\
     - 2048 <= g_subblocks g < 0 /\
     g_levels g = Z.land (field 12 2 (data stream)) 15 /\
     block_size g = Z.shiftl 1 (g_levels g) * g_subblocks g /\
     block_size g < 0 /\
     to_size_t (block_size g) = 2 ^ 64 + block_size g /\
     allocate g = None) /\
    (check_signature K g = false ->
     construct K stream =
       match allocate g with
       | None => inl length_error
       | Some block => complete K g block
       end) /\
    (construct K stream = inl length_error <->
     field 0 4 (data stream) = IP_ACM_SIG K /\
     Z.testbit (field 12 2 (data stream)) 15 = true).
Proof.
  intros Hsize.
  pose proof (field_2_range 12 (data stream)) as Hw.
  pose proof (to_int16_range (field 12 2 (data stream))) as Hrange.
  set (word := field 12 2 (data stream)) in *.
  destruct (levels_of_word (to_int16 word)) as [El Hl].
  destruct (subblocks_of_word (to_int16 word) Hrange) as [Es Hs].
  pose proof (pow2_levels _ Hl) as Hp.
  pose proof (blockSize_of_geometry _ _ Hl Hs) as Eb.
  eexists. split.
  { unfold read_geometry. rewrite (read_header_complete stream Hsize). reflexivity. }
  cbn [g_hdr g_tmpword g_subblocks g_levels Header.signature].
  fold word.
  assert (Hnegative : Z.testbit word 15 = true ->
            to_int16 word = word - 2 ^ 16 /\ to_int16 word < 0 /\
            Z.shiftr (to_int16 word) 4 < 0 /\
            Z.shiftl 1 (Z.land (to_int16 word) 15) * Z.shiftr (to_int16 word) 4 < 0).
  { intros Hbit. pose proof (to_int16_negative _ Hw Hbit) as Hneg.
    assert (Htmp : to_int16 word < 0) by (unfold in_uint16 in Hw; lia).
    assert (Hsub : Z.shiftr (to_int16 word) 4 < 0)
      by (rewrite shiftr_4; apply Z.div_lt_upper_bound; lia).
    repeat split; try assumption. nia. }
  assert (Hclear : Z.testbit word 15 = false ->
            0 <= Z.shiftl 1 (Z.land (to_int16 word) 15) * Z.shiftr (to_int16 word) 4).
  { intros Hbit.
    assert (Hsmall : word < 2 ^ 15).
    { destruct (Z_lt_le_dec word (2 ^ 15)) as [ | Hge ]; [ assumption | ].
      rewrite (Z.testbit_eqb word 15) in Hbit by lia.
      unfold in_uint16 in Hw.
      assert (word / 2 ^ 15 = 1).
      { symmetry. apply (Z.div_unique word (2 ^ 15) 1 (word - 2 ^ 15)); lia. }
      rewrite H in Hbit. discriminate. }
    assert (E : to_int16 word = word).
    { unfold to_int16, in_uint16 in *. rewrite Z.mod_small; lia. }
    rewrite E in *. rewrite shiftr_4.
    assert (0 <= word / 16) by (apply Z.div_pos; unfold in_uint16 in Hw; lia).
    nia. }
  split; [ reflexivity | ]. split; [ | split ].
  - intros Hbit. destruct (Hnegative Hbit) as (Hneg & Htmp & Hsub & Hbs).
    unfold block_size, allocate, block_size.
    cbn [g_subblocks g_levels]. rewrite El, Es, Eb.
    split; [ assumption | ]. split; [ assumption | ].
    split; [ reflexivity | ]. split; [ lia | ].
    split.
    { rewrite Hneg, !land_15.
      replace (word - 2 ^ 16) with (word + (- 4096) * 16) by lia.
      apply Z_mod_plus_full. }
    split; [ reflexivity | ]. split; [ assumption | ].
    assert (Hlow : - 2 ^ 31 <= Z.shiftl 1 (Z.land (to_int16 word) 15)
                               * Z.shiftr (to_int16 word) 4).
    { change (2 ^ 15) with 32768 in Hp. change (2 ^ 31) with 2147483648. nia. }
    split.
    + unfold to_size_t.
      replace (Z.shiftl 1 (Z.land (to_int16 word) 15) * Z.shiftr (to_int16 word) 4)
        with (2 ^ 64 + Z.shiftl 1 (Z.land (to_int16 word) 15)
                       * Z.shiftr (to_int16 word) 4 + (- 1) * 2 ^ 64) at 1 by lia.
      rewrite Z_mod_plus_full. apply Z.mod_small. lia.
    + rewrite resize_spec by (unfold in_int32; lia).
      apply Z.ltb_lt in Hbs. now rewrite Hbs.
  - intros Hsig. rewrite construct_in_steps. unfold construct_steps, read_geometry.
    rewrite (read_header_complete stream Hsize).
    unfold check_signature in *. cbn [g_hdr Header.signature] in *. fold word.
    now rewrite Hsig.
  - rewrite (construct_complete K stream Hsize); cbv zeta. fold word.
    destruct (field 0 4 (data stream) =? IP_ACM_SIG K) eqn:Hsig; cbn [negb].
    2:{ apply Z.eqb_neq in Hsig. split; [ discriminate | intros [H _]; contradiction ]. }
    apply Z.eqb_eq in Hsig.
    destruct (Z.testbit word 15) eqn:Hbit.
    + destruct (Hnegative eq_refl) as (_ & _ & _ & Hbs).
      apply Z.ltb_lt in Hbs. rewrite Hbs. split; [ now split | reflexivity ].
    + pose proof (Hclear eq_refl) as Hbs. apply Z.ltb_ge in Hbs. rewrite Hbs.
      split; [ | intros [_ H]; discriminate ].
      destruct (unpacker_init K _ _); [ | discriminate ].
      destruct (decoder_init K _); discriminate.
Qed.

Lemma negative_geometry_unchecked_witness :
  construct Sample.plain Sample.negative_geometry = inl length_error.
Proof.
  destruct (negative_geometry_unchecked Sample.plain Sample.negative_geometry)
    as (g & _ & _ & _ & _ & Hiff).
  - unfold size; cbn; lia.
  - apply Hiff. split; vm_compute; reflexivity.
Defined.

(** ** The block refill *)

Section Refill.

Context {K : Codec}.
Implicit Types f g : File K.

Lemma ready_is_min (blockSize left : Z) :
  (if blockSize >? left then left else blockSize) = Z.min blockSize left.
Proof.
  rewrite Z.gtb_ltb.
  destruct (left <? blockSize) eqn:E;
    [ apply Z.ltb_lt in E | apply Z.ltb_ge in E ]; lia.
Qed.

Lemma makeNewSamples_failure f u pos b :
  getOneBlock K (_unpacker f) (_stream f) (_block f) = (false, u, pos, b) ->
  _makeNewSamples f = (0, after_unpack f u pos b).
Proof. unfold _makeNewSamples; intros ->; reflexivity. Qed.

Lemma makeNewSamples_success f u pos b :
  getOneBlock K (_unpacker f) (_stream f) (_block f) = (true, u, pos, b) ->
  exists f1,
    _makeNewSamples f = (1, f1) /\
    _stream f1 = setPosition pos (_stream f) /\
    _unpacker f1 = u /\
    _decoder f1 = fst (decodeData K (_decoder f) b (_subblocks f)) /\
    _block f1 = snd (decodeData K (_decoder f) b (_subblocks f)) /\
    _values f1 = 0%nat /\
    _samplesReady f1 = Z.min (_blockSize f) (_samplesLeft f) /\
    _samplesLeft f1 = to_int32 (_samplesLeft f - _samplesReady f1) /\
    _levels f1 = _levels f /\ _subblocks f1 = _subblocks f /\
    _blockSize f1 = _blockSize f /\ _samples f1 = _samples f /\
    _channels f1 = _channels f /\ _bitrate f1 = _bitrate f.
Proof.
  unfold _makeNewSamples; intros ->.
  destruct (decodeData K (_decoder f) b (_subblocks f)) as [d b'] eqn:E.
  eexists; split; [ reflexivity | ]. cbn. rewrite ready_is_min.
  repeat split.
Qed.

(** The refill either reports 0 or 1. *)
Lemma makeNewSamples_cases f :
  (exists u pos b,
      getOneBlock K (_unpacker f) (_stream f) (_block f) = (false, u, pos, b)) \/
  (exists u pos b,
      getOneBlock K (_unpacker f) (_stream f) (_block f) = (true, u, pos, b)).
Proof.
  destruct (getOneBlock K (_unpacker f) (_stream f) (_block f))
    as [[[[ | ] u] pos] b]; [ right | left ]; eauto.
Qed.

Lemma decrement_exact (blockSize left : Z) :
  0 <= blockSize -> in_int32 left ->
  to_int32 (left - Z.min blockSize left) = left - Z.min blockSize left.
Proof.
  unfold in_int32; intros Hb Hl. apply to_int32_id; unfold in_int32. lia.
Qed.

End Refill.

(** C3.  The block refill.  When [getOneBlock] succeeds, [decodeData]
    runs on the buffer it filled with [_subblocks] as its width, the
    decoded buffer becomes the current block, [_samplesReady] is the
    smaller of [_blockSize] and [_samplesLeft] and [_samplesLeft] goes
    down by exactly that amount.  When it fails both counters keep
    their values, so a [_samplesReady] of 0 stays 0, and [readSamples]
    stops there without a further sample. *)
Theorem block_refill (K : Codec) (f : File K) (ok : bool) (u : ValueUnpacker K)
    (pos : nat) (b : list Z) :
  well_formed f ->
  getOneBlock K (_unpacker f) (_stream f) (_block f) = (ok, u, pos, b) ->
  (ok = true ->
     exists f1,
       _makeNewSamples f = (1, f1) /\
       (_decoder f1, _block f1) = decodeData K (_decoder f) b (_subblocks f) /\
       _samplesReady f1 = Z.min (_blockSize f) (_samplesLeft f) /\
       _samplesLeft f1 = _samplesLeft f - _samplesReady f1) /\
  (ok = false ->
     exists f1,
       _makeNewSamples f = (0, f1) /\
       _samplesReady f1 = _samplesReady f /\
       _samplesLeft f1 = _samplesLeft f /\
       (_samplesReady f = 0 -> _samplesLeft f <> 0 ->
        forall n, readSamples f (S n) = Some ([], f1))).
Proof.
  intros Hwf Hget. split; intros ->.
  - destruct (makeNewSamples_success f u pos b Hget)
      as (f1 & Hm & _ & _ & Hd & Hb & _ & Hr & Hl & _).
    exists f1. repeat split; try assumption.
    + rewrite Hd, Hb. now destruct (decodeData K _ _ _).
    + rewrite Hl, Hr. apply decrement_exact.
      * apply (wf_blockSize f Hwf).
      * apply (wf_samplesLeft f Hwf).
  - exists (after_unpack f u pos b).
    pose proof (makeNewSamples_failure f u pos b Hget) as Hm.
    repeat split; try assumption.
    intros Hr Hl n. cbn [readSamples]. rewrite Hr, Hm.
    apply Z.eqb_neq in Hl. rewrite Hl. reflexivity.
Qed.

Lemma fresh_constructed : construct Sample.plain Sample.container = inr Sample.fresh.
Proof. vm_compute; reflexivity. Qed.

Lemma fresh_well_formed : well_formed Sample.fresh.
Proof. split; unfold in_int32; cbn; lia. Qed.

Lemma block_refill_witness :
  exists f1,
    _makeNewSamples Sample.fresh = (1, f1) /\
    _samplesReady f1 = 32 /\ _samplesLeft f1 = 18.
Proof.
  destruct (block_refill Sample.plain Sample.fresh true 1%nat 46%nat
              (map Sample.byte_value (firstn 32 Sample.payload_bytes))
              fresh_well_formed ltac:(vm_compute; reflexivity)) as [Hok _].
  destruct (Hok eq_refl) as (f1 & Hm & _ & Hr & Hl).
  exists f1. rewrite Hl, Hr. repeat split. exact Hm.
Defined.

(** ** The end of the stream *)

Lemma readSamples_at_end {K : Codec} (f : File K) (count : nat) :
  _samplesLeft f = 0 -> _samplesReady f = 0 -> readSamples f count = Some ([], f).
Proof.
  intros Hl Hr. destruct count as [ | n ]; cbn [readSamples]; [ reflexivity | ].
  now rewrite Hr, Hl.
Qed.

(** C8.  With nothing left to decode and nothing buffered, [readSamples]
    returns no sample, whatever the count, and leaves the whole object
    (counters, block cursor, stream, collaborators) as it was; so does
    every further call. *)
Theorem exhausted_reads_nothing (K : Codec) (f : File K) :
  _samplesLeft f = 0 -> _samplesReady f = 0 ->
  (forall count, readSamples f count = Some ([], f)) /\
  (forall counts, readMany f counts = Some ([], f)).
Proof.
  intros Hl Hr.
  assert (Hone : forall count, readSamples f count = Some ([], f))
    by (intros count; apply readSamples_at_end; assumption).
  split; [ exact Hone | ].
  unfold readMany.
  induction counts as [ | count rest IH ]; cbn [run map]; [ reflexivity | ].
  now rewrite Hone, IH.
Qed.

Lemma exhausted_reads_nothing_witness :
  readSamples (consume 18 (snd (_makeNewSamples (consume 32 (snd (_makeNewSamples Sample.fresh)))))) 7
  = Some ([], consume 18 (snd (_makeNewSamples (consume 32 (snd (_makeNewSamples Sample.fresh)))))).
Proof.
  apply (exhausted_reads_nothing Sample.plain); vm_compute; reflexivity.
Defined.

(** ** The delivered samples *)

Lemma sample16_value (levels x : Z) :
  0 <= levels ->
  Z.shiftr x levels = x / 2 ^ levels /\
  sample16 levels x = Z.shiftr x levels mod 2 ^ 16 /\
  to_int16 (sample16 levels x) = to_int16 (Z.shiftr x levels).
Proof.
  intros Hl. unfold sample16, to_uint16.
  split; [ apply Z.shiftr_div_pow2; assumption | ].
  rewrite to_int16_congr. split; [ reflexivity | ].
  unfold to_int16. now rewrite Zplus_mod_idemp_l.
Qed.

Lemma skipn_nth_error {A : Type} (l : list A) (n : nat) (x : A) :
  nth_error l n = Some x -> skipn n l = x :: skipn (S n) l.
Proof.
  revert l; induction n as [ | n IH ]; intros [ | y l ] H; cbn in H; try discriminate.
  - injection H as ->. reflexivity.
  - cbn [skipn]. rewrite (IH l H). reflexivity.
Qed.

Section Delivery.

Context {K : Codec}.
Implicit Types f g : File K.

Lemma buffered_cons f (n : nat) (x : Z) :
  nth_error (_block f) (_values f) = Some x ->
  buffered (S n) f = sample16 (_levels f) x :: buffered n (advance f).
Proof.
  intros H. unfold buffered. rewrite (skipn_nth_error _ _ _ H). reflexivity.
Qed.

(** The first [k] samples of a call come out of the buffered slots, in
    buffer order; the call goes on from the state with those consumed. *)
Lemma readSamples_buffered f (count k : nat) :
  (k <= count)%nat ->
  Z.of_nat k <= _samplesReady f < 2 ^ 31 ->
  (_values f + k <= List.length (_block f))%nat ->
  readSamples f count =
    match readSamples (consume k f) (count - k) with
    | None => None
    | Some (out, f') => Some (buffered k f ++ out, f')
    end.
Proof.
  revert f count; induction k as [ | k IH ]; intros f count Hk Hr Hv.
  - cbn [consume]. rewrite Nat.sub_0_r.
    destruct (readSamples f count) as [[out f'] | ]; reflexivity.
  - destruct count as [ | c ]; [ lia | ].
    cbn [readSamples consume]. rewrite Nat.sub_succ.
    assert (Hne : (_samplesReady f =? 0) = false) by (apply Z.eqb_neq; lia).
    rewrite Hne. unfold emit.
    destruct (nth_error (_block f) (_values f)) as [x | ] eqn:Hx.
    2:{ apply nth_error_None in Hx. lia. }
    rewrite (buffered_cons f k x Hx).
    rewrite (IH (advance f) c).
    + destruct (readSamples (consume k (advance f)) (c - k)) as [[out f'] | ];
        reflexivity.
    + lia.
    + cbn [advance _samplesReady]. rewrite to_int32_id; unfold in_int32; lia.
    + cbn [advance _values _block]. lia.
Qed.

(** After a successful refill of a buffer that has slots, the call goes
    on as a call on the refilled state, whose cursor is at slot 0. *)
Lemma readSamples_refilled f f1 (n : nat) :
  _samplesReady f = 0 -> _samplesLeft f <> 0 -> _blockSize f <> 0 ->
  _makeNewSamples f = (1, f1) ->
  _values f1 = 0%nat /\ readSamples f (S n) = readSamples f1 (S n).
Proof.
  intros Hr Hl Hb Hm.
  destruct (makeNewSamples_cases f) as [(u & pos & b & Hg) | (u & pos & b & Hg)].
  - rewrite (makeNewSamples_failure f u pos b Hg) in Hm. discriminate.
  - destruct (makeNewSamples_success f u pos b Hg)
      as (f1' & Hm' & _ & _ & _ & _ & Hv & Hr1 & _).
    rewrite Hm in Hm'. injection Hm' as <-.
    split; [ exact Hv | ].
    cbn [readSamples]. rewrite Hr, Hm.
    apply Z.eqb_neq in Hl. rewrite Hl. cbn [Z.eqb].
    assert (Hne : (_samplesReady f1 =? 0) = false).
    { apply Z.eqb_neq. rewrite Hr1. apply Z.eqb_neq in Hl. lia. }
    now rewrite Hne.
Qed.

End Delivery.

(** C4.  Every sample [readSamples] writes is a block-buffer slot
    shifted right arithmetically by [_levels] (the floor of the division
    by [2^levels]) and truncated to 16 bits, the signed reading of the
    written value being the [short] cast of the shifted slot.  The slots
    are taken in increasing buffer order: the first [k] samples of a
    call are the next [k] buffered slots from the cursor on, and after a
    refill the call continues from slot 0 of the new block. *)
Theorem delivered_sample_values (K : Codec) (f : File K) :
  (forall levels x, 0 <= levels ->
     Z.shiftr x levels = x / 2 ^ levels /\
     sample16 levels x = Z.shiftr x levels mod 2 ^ 16 /\
     to_int16 (sample16 levels x) = to_int16 (Z.shiftr x levels)) /\
  (forall count k : nat,
     (k <= count)%nat ->
     Z.of_nat k <= _samplesReady f < 2 ^ 31 ->
     (_values f + k <= List.length (_block f))%nat ->
     readSamples f count =
       match readSamples (consume k f) (count - k) with
       | None => None
       | Some (out, f') =>
           Some (map (sample16 (_levels f))
                     (firstn k (skipn (_values f) (_block f))) ++ out, f')
       end) /\
  (forall f1 n,
     _samplesReady f = 0 -> _samplesLeft f <> 0 -> _blockSize f <> 0 ->
     _makeNewSamples f = (1, f1) ->
     _values f1 = 0%nat /\ readSamples f (S n) = readSamples f1 (S n)).
Proof.
  split; [ exact sample16_value | ].
  split; [ exact (readSamples_buffered f) | ].
  intros f1 n. apply readSamples_refilled.
Qed.

Lemma delivered_sample_values_witness :
  sample16 3 (-20) = Z.shiftr (-20) 3 mod 2 ^ 16 /\
  readSamples (snd (_makeNewSamples Sample.fresh)) 5 =
    Some ([2; 5; 30; 0; 2], consume 5 (snd (_makeNewSamples Sample.fresh))).
Proof.
  destruct (delivered_sample_values Sample.plain (snd (_makeNewSamples Sample.fresh)))
    as (Hshift & Hbuf & _).
  split.
  - apply (Hshift 3 (-20)). lia.
  - rewrite (Hbuf 5%nat 5%nat).
    + reflexivity.
    + lia.
    + vm_compute. split; [ discriminate | reflexivity ].
    + vm_compute. repeat constructor.
Defined.

(** ** Accounting of the samples *)

Section Accounting.

Context {K : Codec}.
Implicit Types f g : File K.

Lemma constructed_well_formed (stream : Stream.t) f :
  construct K stream = inr f ->
  well_formed f /\ _samplesReady f = 0 /\ _samplesLeft f = _samples f /\
  _values f = 0%nat /\ _stream f = setPosition 14 (opened stream).
Proof.
  intros Hc.
  destruct (le_lt_dec 14 (size stream)) as [Hsize | Hshort].
  2:{ rewrite (construct_short K stream Hshort) in Hc; discriminate. }
  rewrite (construct_complete K stream Hsize) in Hc. cbv zeta in Hc.
  destruct (negb _); [ discriminate | ].
  destruct (_ <? 0) eqn:Hbs; [ discriminate | ].
  apply Z.ltb_ge in Hbs.
  destruct (unpacker_init K _ _); [ | discriminate ].
  destruct (decoder_init K _); [ | discriminate ].
  injection Hc as <-.
  pose proof (to_int16_range (field 12 2 (data stream))) as Hw.
  destruct (levels_of_word (to_int16 (field 12 2 (data stream)))) as [_ Hl].
  destruct (subblocks_of_word _ Hw) as [_ Hs].
  pose proof (blockSize_of_geometry _ _ Hl Hs) as Hb.
  pose proof (to_int32_range
    (Z.shiftl 1 (Z.land (to_int16 (field 12 2 (data stream))) 15)
       * Z.shiftr (to_int16 (field 12 2 (data stream))) 4)) as Hb32.
  rewrite Hb in Hb32. unfold in_int32 in Hb32.
  repeat split; cbn [_blockSize _block _samplesLeft _samplesReady _samples]; try lia.
  - apply repeat_length.
  - apply to_int32_range.
  - apply to_int32_range.
  - apply to_int32_range.
  - apply to_int32_range.
Qed.

(** Every call keeps the object well formed. *)
Lemma well_formed_makeNewSamples f :
  well_formed f -> well_formed (snd (_makeNewSamples f)).
Proof.
  intros [Hbs Hblock Hl Hr Hs].
  pose proof (getOneBlock_length K (_unpacker f) (_stream f) (_block f)) as Hlen.
  destruct (makeNewSamples_cases f) as [(u & pos & b & Hg) | (u & pos & b & Hg)];
    rewrite Hg in Hlen; cbn [snd] in Hlen.
  - rewrite (makeNewSamples_failure f u pos b Hg); cbn [snd].
    split; cbn [after_unpack _blockSize _block _samplesLeft _samplesReady _samples];
      try assumption. congruence.
  - destruct (makeNewSamples_success f u pos b Hg)
      as (f1 & Hm & _ & _ & _ & Hb1 & _ & Hr1 & Hl1 & _ & _ & Hbs1 & Hs1 & _).
    rewrite Hm; cbn [snd].
    split; rewrite ?Hbs1, ?Hs1, ?Hl1, ?Hr1; try assumption.
    + rewrite Hb1, decodeData_length. congruence.
    + apply to_int32_range.
    + unfold in_int32 in *. lia.
Qed.

Lemma well_formed_advance f : well_formed f -> well_formed (advance f).
Proof.
  intros [Hbs Hblock Hl Hr Hs].
  split; cbn [advance _blockSize _block _samplesLeft _samplesReady _samples];
    try assumption. apply to_int32_range.
Qed.

Lemma well_formed_rewind f : well_formed f -> well_formed (rewind f).
Proof.
  intros [Hbs Hblock Hl Hr Hs].
  split; cbn [rewind _blockSize _block _samplesLeft _samplesReady _samples];
    try assumption. unfold in_int32; lia.
Qed.

Lemma readSamples_well_formed (count : nat) f out f' :
  well_formed f -> readSamples f count = Some (out, f') -> well_formed f'.
Proof.
  revert f out f'; induction count as [ | n IH ]; intros f out f' Hwf Hread.
  { injection Hread as _ <-. assumption. }
  assert (Hemit : forall g out g',
            well_formed g ->
            emit (fun h => readSamples h n) g = Some (out, g') -> well_formed g').
  { intros g o g' Hg He. unfold emit in He.
    destruct (nth_error (_block g) (_values g)); [ | discriminate ].
    destruct (readSamples (advance g) n) as [[o' g''] | ] eqn:Hr; [ | discriminate ].
    injection He as _ <-.
    apply (IH _ _ _ (well_formed_advance g Hg) Hr). }
  cbn [readSamples] in Hread.
  destruct (_samplesReady f =? 0).
  - destruct (_samplesLeft f =? 0).
    { injection Hread as _ <-. assumption. }
    pose proof (well_formed_makeNewSamples f Hwf) as Hw.
    destruct (_makeNewSamples f) as [made f1]; cbn [snd] in Hw.
    destruct (made =? 0).
    + injection Hread as _ <-. exact Hw.
    + apply (Hemit _ _ _ Hw Hread).
  - apply (Hemit _ _ _ Hwf Hread).
Qed.

Lemma run_well_formed (calls : list Call) f out f' :
  well_formed f -> run f calls = Some (out, f') -> well_formed f'.
Proof.
  revert f out f'; induction calls as [ | [count | ] rest IH ]; intros f out f' Hwf Hrun;
    cbn [run] in Hrun.
  - injection Hrun as _ <-. assumption.
  - destruct (readSamples f count) as [[o f1] | ] eqn:Hr; [ | discriminate ].
    destruct (run f1 rest) as [[o' f2] | ] eqn:Hr'; [ | discriminate ].
    injection Hrun as _ <-.
    apply (IH _ _ _ (readSamples_well_formed _ _ _ _ Hwf Hr) Hr').
  - apply (IH _ _ _ (well_formed_rewind f Hwf) Hrun).
Qed.

Lemma constructed_accounted (stream : Stream.t) f :
  construct K stream = inr f -> 0 < _blockSize f -> 0 <= _samples f ->
  accounted f.
Proof.
  intros Hc Hb Hs.
  destruct (constructed_well_formed stream f Hc) as (Hwf & Hr & Hl & Hv & _).
  destruct Hwf as [Hbs Hblock Hl32 Hr32].
  rewrite Hl in Hl32. unfold in_int32 in Hl32.
  split; rewrite ?Hr, ?Hl, ?Hv; lia.
Qed.

Lemma accounted_slot f :
  accounted f -> 0 < _samplesReady f ->
  exists x, nth_error (_block f) (_values f) = Some x.
Proof.
  intros [Hb Hblock Hr Hl Ht Hs Hc] Hpos.
  destruct (nth_error (_block f) (_values f)) as [x | ] eqn:E; [ eauto | ].
  apply nth_error_None in E. lia.
Qed.

Lemma accounted_advance f :
  accounted f -> 0 < _samplesReady f ->
  accounted (advance f) /\
  _samplesReady (advance f) = _samplesReady f - 1.
Proof.
  intros [Hb Hblock Hr Hl Ht Hs Hc] Hpos.
  assert (E : to_int32 (_samplesReady f - 1) = _samplesReady f - 1)
    by (apply to_int32_id; unfold in_int32; lia).
  split; [ split | ]; cbn [advance _blockSize _block _samplesReady _samplesLeft
                            _samples _values]; rewrite ?E; lia.
Qed.

Lemma accounted_rewind f : accounted f -> accounted (rewind f).
Proof.
  intros [Hb Hblock Hr Hl Ht Hs Hc].
  split; cbn [rewind _blockSize _block _samplesReady _samplesLeft _samples _values];
    lia.
Qed.

Lemma accounted_unpack_failed f u pos b :
  getOneBlock K (_unpacker f) (_stream f) (_block f) = (false, u, pos, b) ->
  accounted f -> accounted (after_unpack f u pos b).
Proof.
  intros Hg [Hb Hblock Hr Hl Ht Hs Hc].
  pose proof (getOneBlock_length K (_unpacker f) (_stream f) (_block f)) as Hlen.
  rewrite Hg in Hlen; cbn [snd] in Hlen.
  split; cbn [after_unpack _blockSize _block _samplesReady _samplesLeft _samples
              _values]; lia.
Qed.

Lemma accounted_refilled f f1 :
  accounted f -> _samplesReady f = 0 -> _samplesLeft f <> 0 ->
  _makeNewSamples f = (1, f1) ->
  accounted f1 /\ 0 < _samplesReady f1 /\
  _samplesReady f1 = Z.min (_blockSize f) (_samplesLeft f) /\
  _samplesReady f1 + _samplesLeft f1 = _samplesLeft f /\
  _samples f1 = _samples f /\ _blockSize f1 = _blockSize f.
Proof.
  intros [Hb Hblock Hr Hl Ht Hs Hc] Hr0 Hl0 Hm.
  destruct (makeNewSamples_cases f) as [(u & pos & b & Hg) | (u & pos & b & Hg)].
  { rewrite (makeNewSamples_failure f u pos b Hg) in Hm. discriminate. }
  destruct (makeNewSamples_success f u pos b Hg)
    as (f1' & Hm' & _ & _ & _ & Hb1 & Hv1 & Hr1 & Hl1 & _ & _ & Hbs1 & Hs1 & _).
  rewrite Hm in Hm'. injection Hm' as <-.
  rewrite Hr1 in Hl1. rewrite decrement_exact in Hl1 by (unfold in_int32; lia).
  pose proof (getOneBlock_length K (_unpacker f) (_stream f) (_block f)) as Hlen.
  rewrite Hg in Hlen; cbn [snd] in Hlen.
  pose proof (decodeData_length K (_decoder f) b (_subblocks f)) as Hlen'.
  rewrite <- Hb1 in Hlen'.
  repeat split; rewrite ?Hbs1, ?Hs1, ?Hv1, ?Hl1, ?Hr1; try lia.
Qed.

Lemma refilled_cursor f f1 : _makeNewSamples f = (1, f1) -> _values f1 = 0%nat.
Proof.
  intros Hm.
  destruct (makeNewSamples_cases f) as [(u & pos & b & Hg) | (u & pos & b & Hg)].
  { rewrite (makeNewSamples_failure f u pos b Hg) in Hm. discriminate. }
  destruct (makeNewSamples_success f u pos b Hg) as (f1' & Hm' & _ & _ & _ & _ & Hv & _).
  rewrite Hm in Hm'. injection Hm' as <-. exact Hv.
Qed.

Lemma constructed_blockSize (stream : Stream.t) f :
  construct K stream = inr f ->
  _blockSize f = Z.shiftl 1 (_levels f) * _subblocks f.
Proof.
  intros Hc.
  destruct (le_lt_dec 14 (size stream)) as [Hsize | Hshort].
  2:{ rewrite (construct_short K stream Hshort) in Hc; discriminate. }
  rewrite (construct_complete K stream Hsize) in Hc. cbv zeta in Hc.
  destruct (negb _); [ discriminate | ].
  destruct (_ <? 0); [ discriminate | ].
  destruct (unpacker_init K _ _); [ | discriminate ].
  destruct (decoder_init K _); [ | discriminate ].
  injection Hc as <-. reflexivity.
Qed.

(** A call returns, keeps the accounting, and what it writes comes off
    the buffered and remaining counts. *)
Lemma readSamples_accounted (count : nat) f :
  accounted f ->
  exists out f',
    readSamples f count = Some (out, f') /\ accounted f' /\
    (List.length out <= count)%nat /\
    Z.of_nat (List.length out) + _samplesReady f' + _samplesLeft f'
      = _samplesReady f + _samplesLeft f /\
    _samples f' = _samples f /\ _blockSize f' = _blockSize f.
Proof.
  revert f; induction count as [ | n IH ]; intros f Hacc.
  { exists [], f. split; [ reflexivity | split; [ assumption | ] ].
    cbn [List.length]. repeat split; lia. }
  assert (Hemit : forall g, accounted g -> 0 < _samplesReady g ->
    exists out g',
      emit (fun h => readSamples h n) g = Some (out, g') /\ accounted g' /\
      (List.length out <= S n)%nat /\
      Z.of_nat (List.length out) + _samplesReady g' + _samplesLeft g'
        = _samplesReady g + _samplesLeft g /\
      _samples g' = _samples g /\ _blockSize g' = _blockSize g).
  { intros g Hg Hpos.
    destruct (accounted_slot g Hg Hpos) as [x Hx].
    destruct (accounted_advance g Hg Hpos) as [Ha Hr].
    destruct (IH (advance g) Ha) as (out & g' & Hread & Hacc' & Hlen & Hsum & Hs & Hb).
    exists (sample16 (_levels g) x :: out), g'.
    unfold emit. rewrite Hx, Hread.
    cbn [List.length advance _samplesLeft _samples _blockSize] in *.
    split; [ reflexivity | split; [ assumption | ] ].
    repeat split; lia. }
  cbn [readSamples].
  destruct (_samplesReady f =? 0) eqn:Er.
  - apply Z.eqb_eq in Er.
    destruct (_samplesLeft f =? 0) eqn:El.
    { exists [], f. split; [ reflexivity | split; [ assumption | ] ].
      cbn [List.length]. repeat split; lia. }
    apply Z.eqb_neq in El.
    destruct (makeNewSamples_cases f) as [(u & pos & b & Hg) | (u & pos & b & Hg)].
    + rewrite (makeNewSamples_failure f u pos b Hg). cbn [Z.eqb].
      exists [], (after_unpack f u pos b).
      split; [ reflexivity | split ].
      * apply (accounted_unpack_failed f u pos b Hg Hacc).
      * cbn [List.length after_unpack _samplesReady _samplesLeft _samples _blockSize].
        repeat split; lia.
    + destruct (makeNewSamples_success f u pos b Hg) as (f1 & Hm & _).
      rewrite Hm. cbn [Z.eqb].
      destruct (accounted_refilled f f1 Hacc Er El Hm)
        as (Hacc1 & Hpos1 & _ & Hsum1 & Hs1 & Hb1).
      destruct (Hemit f1 Hacc1 Hpos1) as (out & g' & He & Hacc' & Hlen & Hsum & Hs & Hb).
      exists out, g'.
      split; [ assumption | split; [ assumption | ] ].
      repeat split; lia.
  - apply Z.eqb_neq in Er.
    apply Hemit; [ assumption | ].
    pose proof (acc_ready f Hacc). lia.
Qed.

Lemma run_accounted (calls : list Call) f :
  accounted f ->
  exists out f',
    run f calls = Some (out, f') /\ accounted f' /\ _samples f' = _samples f.
Proof.
  revert f; induction calls as [ | [count | ] rest IH ]; intros f Hacc; cbn [run].
  - exists [], f. split; [ reflexivity | split; [ assumption | reflexivity ] ].
  - destruct (readSamples_accounted count f Hacc)
      as (out & f1 & Hread & Hacc1 & _ & _ & Hs1 & _).
    destruct (IH f1 Hacc1) as (out' & f2 & Hrun & Hacc2 & Hs2).
    exists (out ++ out'), f2. rewrite Hread, Hrun.
    split; [ reflexivity | split; [ assumption | congruence ] ].
  - destruct (IH (rewind f) (accounted_rewind f Hacc)) as (out & f' & Hrun & Hacc' & Hs).
    exists out, f'. split; [ assumption | split; [ assumption | ] ].
    rewrite Hs. reflexivity.
Qed.

Lemma readMany_conserved (counts : list nat) f :
  accounted f ->
  exists out f',
    readMany f counts = Some (out, f') /\ accounted f' /\
    Z.of_nat (List.length out) + _samplesReady f' + _samplesLeft f'
      = _samplesReady f + _samplesLeft f /\
    _samples f' = _samples f.
Proof.
  unfold readMany.
  revert f; induction counts as [ | count rest IH ]; intros f Hacc; cbn [run map].
  - exists [], f. split; [ reflexivity | split; [ assumption | ] ].
    cbn [List.length]. split; lia.
  - destruct (readSamples_accounted count f Hacc)
      as (out & f1 & Hread & Hacc1 & _ & Hsum1 & Hs1 & _).
    destruct (IH f1 Hacc1) as (out' & f2 & Hrun & Hacc2 & Hsum2 & Hs2).
    exists (out ++ out'), f2. rewrite Hread, Hrun.
    split; [ reflexivity | split; [ assumption | ] ].
    rewrite length_app, Nat2Z.inj_add. split; [ lia | congruence ].
Qed.

Lemma payload_refill (m : nat) f :
  well_formed_payload (S m) f ->
  exists f1, _makeNewSamples f = (1, f1) /\ well_formed_payload m f1.
Proof.
  unfold well_formed_payload; cbn [payload_blocks]; intros Hp.
  destruct (makeNewSamples_cases f) as [(u & pos & b & Hg) | (u & pos & b & Hg)];
    rewrite Hg in Hp; [ discriminate | ].
  destruct (makeNewSamples_success f u pos b Hg)
    as (f1 & Hm & Hs1 & Hu1 & Hd1 & Hb1 & _ & _ & _ & _ & Hsub1 & _).
  exists f1. split; [ assumption | ].
  rewrite Hs1, Hu1, Hd1, Hb1, Hsub1.
  now destruct (decodeData K (_decoder f) b (_subblocks f)).
Qed.

(** With enough well-formed blocks in the payload a call delivers all
    it is asked for, up to what the stream still holds. *)
Lemma readSamples_exhaust (count : nat) f (n : nat) :
  accounted f -> well_formed_payload n f ->
  _samplesLeft f <= Z.of_nat n * _blockSize f ->
  exists out f',
    readSamples f count = Some (out, f') /\
    Z.of_nat (List.length out)
      = Z.min (Z.of_nat count) (_samplesReady f + _samplesLeft f).
Proof.
  revert f n; induction count as [ | c IH ]; intros f n Hacc Hp Hn.
  { exists [], f. split; [ reflexivity | ].
    pose proof (acc_ready f Hacc). pose proof (acc_left f Hacc).
    cbn [List.length]. lia. }
  assert (Hemit : forall g k, accounted g -> 0 < _samplesReady g ->
    well_formed_payload k g -> _samplesLeft g <= Z.of_nat k * _blockSize g ->
    exists out g',
      emit (fun h => readSamples h c) g = Some (out, g') /\
      Z.of_nat (List.length out)
        = Z.min (Z.of_nat (S c)) (_samplesReady g + _samplesLeft g)).
  { intros g k Hg Hpos Hpk Hk.
    destruct (accounted_slot g Hg Hpos) as [x Hx].
    destruct (accounted_advance g Hg Hpos) as [Ha Hr].
    destruct (IH (advance g) k Ha Hpk Hk) as (out & g' & Hread & Hlen).
    exists (sample16 (_levels g) x :: out), g'.
    unfold emit. rewrite Hx, Hread. split; [ reflexivity | ].
    pose proof (acc_left g Hg).
    cbn [List.length advance _samplesLeft] in *. lia. }
  cbn [readSamples].
  destruct (_samplesReady f =? 0) eqn:Er.
  - apply Z.eqb_eq in Er.
    destruct (_samplesLeft f =? 0) eqn:El.
    { apply Z.eqb_eq in El. exists [], f. split; [ reflexivity | ].
      cbn [List.length]. lia. }
    apply Z.eqb_neq in El.
    pose proof (acc_left f Hacc) as Hl0.
    pose proof (acc_blockSize f Hacc) as Hb0.
    destruct n as [ | m ]; [ cbn in Hn; lia | ].
    destruct (payload_refill m f Hp) as (f1 & Hm & Hp1).
    rewrite Hm. cbn [Z.eqb].
    destruct (accounted_refilled f f1 Hacc Er El Hm)
      as (Hacc1 & Hpos1 & Hr1 & Hsum1 & _ & Hb1).
    destruct (Hemit f1 m Hacc1 Hpos1 Hp1) as (out & g' & He & Hlen).
    { rewrite Hb1. rewrite Nat2Z.inj_succ, Z.mul_succ_l in Hn. lia. }
    exists out, g'. split; [ assumption | ]. lia.
  - apply Z.eqb_neq in Er.
    apply (Hemit f n); try assumption.
    pose proof (acc_ready f Hacc). lia.
Qed.

End Accounting.

(** C5 (as the code has it).  On a stream constructed from a header
    with a positive block size and a sample count that fits the signed
    counter (below 2^31): every
    sequence of calls returns and keeps
    [samplesReady + samplesLeft <= samples]; over a sequence of
    [readSamples] calls the samples produced, those buffered and those
    left add up to the total, so that the produced ones plus
    [samplesLeft] never exceed it; and when the payload holds the blocks
    the sample count needs, a call asking for at least [samples] values
    delivers exactly [samples] of them and leaves nothing behind. *)
Theorem sample_conservation (K : Codec) (stream : Stream.t) (f0 : File K) :
  construct K stream = inr f0 ->
  0 < _blockSize f0 -> 0 <= samples f0 ->
  (forall calls, exists out f',
     run f0 calls = Some (out, f') /\
     0 <= _samplesReady f' /\ 0 <= samplesLeft f' /\
     _samplesReady f' + samplesLeft f' <= samples f0) /\
  (forall counts, exists out f',
     readMany f0 counts = Some (out, f') /\
     Z.of_nat (List.length out) + _samplesReady f' + samplesLeft f' = samples f0 /\
     Z.of_nat (List.length out) + samplesLeft f' <= samples f0) /\
  (forall n count,
     well_formed_payload n f0 ->
     samples f0 <= Z.of_nat n * _blockSize f0 ->
     samples f0 <= Z.of_nat count ->
     exists out f',
       readSamples f0 count = Some (out, f') /\
       Z.of_nat (List.length out) = samples f0 /\
       _samplesReady f' = 0 /\ samplesLeft f' = 0).
Proof.
  unfold samples, samplesLeft. intros Hc Hb Hs.
  pose proof (constructed_accounted stream f0 Hc Hb Hs) as Hacc.
  destruct (constructed_well_formed stream f0 Hc) as (_ & Hr0 & Hl0 & _).
  split; [ | split ].
  - intros calls.
    destruct (run_accounted calls f0 Hacc) as (out & f' & Hrun & Hacc' & Hs').
    exists out, f'. destruct Hacc' as [_ _ Hr Hl Ht _ _].
    repeat split; try assumption. lia.
  - intros counts.
    destruct (readMany_conserved counts f0 Hacc) as (out & f' & Hrun & Hacc' & Hsum & _).
    exists out, f'. pose proof (acc_ready f' Hacc').
    repeat split; try assumption; lia.
  - intros n count Hp Hn Hcount.
    destruct (readSamples_exhaust count f0 n Hacc Hp) as (out & f' & Hread & Hlen);
      [ lia | ].
    destruct (readSamples_accounted count f0 Hacc)
      as (out' & f'' & Hread' & Hacc' & _ & Hsum & _).
    rewrite Hread in Hread'. injection Hread' as <- <-.
    exists out, f'. pose proof (acc_ready f' Hacc'). pose proof (acc_left f' Hacc').
    repeat split; try assumption; lia.
Qed.

Lemma sample_conservation_witness :
  exists out f',
    readSamples Sample.fresh 60 = Some (out, f') /\
    Z.of_nat (List.length out) = 50 /\
    _samplesReady f' = 0 /\ samplesLeft f' = 0.
Proof.
  refine (proj2 (proj2 (sample_conservation Sample.plain Sample.container Sample.fresh
                          fresh_constructed _ _)) 2%nat 60%nat _ _ _).
  - cbn; lia.
  - cbn; lia.
  - vm_compute; reflexivity.
  - cbn; lia.
  - cbn; lia.
Defined.

(** C5 as the specification words it fails.  The constructor accepts
    headers outside the two conditions, and the accounting is lost on
    them.  With the sample count 0x80000005 the counters start at
    -2147483643: the first refill makes that many samples ready, one
    delivered sample and [samplesLeft = 0] already exceed the total of
    the accessor, [_samplesReady] stays negative and never triggers
    another refill, so that a call for 33 values leaves the 32 slots of
    the buffer.  With the geometry word 0x0003 the buffer is empty and
    the first sample of any call is read outside it. *)
Lemma conservation_counterexample :
  (exists f0 : File Sample.plain,
     construct Sample.plain Sample.signed_count = inr f0 /\
     samples f0 = - 2147483643 /\
     well_formed_payload 2 f0 /\
     (exists out f1,
        readSamples f0 1 = Some (out, f1) /\
        Z.of_nat (List.length out) + samplesLeft f1 > samples f0 /\
        _samplesReady f1 = - 2147483644) /\
     readSamples f0 33 = None) /\
  (exists f0 : File Sample.plain,
     construct Sample.plain Sample.empty_geometry = inr f0 /\
     samples f0 = 50 /\ _blockSize f0 = 0 /\
     well_formed_payload 2 f0 /\
     readSamples f0 1 = None).
Proof.
  split.
  - eexists. split; [ vm_compute; reflexivity | ].
    split; [ vm_compute; reflexivity | ].
    split; [ vm_compute; reflexivity | ].
    split; [ | vm_compute; reflexivity ].
    eexists _, _. split; [ vm_compute; reflexivity | ].
    split; reflexivity.
  - eexists. split; [ vm_compute; reflexivity | ].
    split; [ vm_compute; reflexivity | ].
    split; [ vm_compute; reflexivity | ].
    split; vm_compute; reflexivity.
Qed.

(** ** The 50-sample scenario *)

Section Scenario.

Context {K : Codec}.
Implicit Types f g : File K.

Lemma consume_accounted (n : nat) f :
  accounted f -> Z.of_nat n <= _samplesReady f ->
  accounted (consume n f) /\
  _samplesReady (consume n f) = _samplesReady f - Z.of_nat n /\
  _samplesLeft (consume n f) = _samplesLeft f /\
  _blockSize (consume n f) = _blockSize f /\
  (forall k, well_formed_payload k (consume n f) <-> well_formed_payload k f).
Proof.
  revert f; induction n as [ | n IH ]; intros f Hacc Hn; cbn [consume].
  - split; [ assumption | ]. repeat split; try lia; auto.
  - destruct (accounted_advance f Hacc ltac:(lia)) as [Ha Hr].
    destruct (IH (advance f) Ha ltac:(lia)) as (Hacc' & Hr' & Hl' & Hb' & Hp').
    split; [ assumption | ].
    rewrite Hr', Hl', Hb', Hr. cbn [advance _samplesLeft _blockSize].
    repeat split; try lia; apply Hp'.
Qed.

(** A refill followed by the delivery of all it made ready. *)
Lemma readSamples_one_block f f1 (count k : nat) :
  accounted f -> _samplesReady f = 0 -> _samplesLeft f <> 0 ->
  _makeNewSamples f = (1, f1) ->
  _samplesReady f1 = Z.of_nat k -> (0 < k <= count)%nat ->
  readSamples f count =
    match readSamples (consume k f1) (count - k) with
    | None => None
    | Some (out, f') => Some (buffered k f1 ++ out, f')
    end.
Proof.
  intros Hacc Hr Hl Hm Hk Hcount.
  destruct (accounted_refilled f f1 Hacc Hr Hl Hm) as (Hacc1 & _).
  pose proof (acc_blockSize f Hacc) as Hb.
  destruct count as [ | c ]; [ lia | ].
  destruct (readSamples_refilled f f1 c Hr Hl ltac:(lia) Hm) as [Hv ->].
  apply readSamples_buffered; [ lia | | ].
  - destruct Hacc1 as [? ? ? ? ? ? ?]. lia.
  - destruct Hacc1 as [? ? ? ? ? ? ?]. lia.
Qed.

End Scenario.

(** C9 (as the code has it).  A stream constructed with [levels = 3],
    [subblocks = 4] and 50 samples has a block size of 32; when the
    payload holds two blocks, [readSamples(buf, 50)] delivers 50
    samples over two refills: the first makes 32 samples ready and
    leaves 18, the second makes [min(32, 18) = 18] ready and leaves
    none.  The samples are the 32 slots of the first block and the first
    18 slots of the second; after the call [samplesReady] and
    [samplesLeft] are both 0 and the next call returns nothing. *)
Theorem fifty_samples_two_refills (K : Codec) (stream : Stream.t) (f : File K) :
  construct K stream = inr f ->
  _levels f = 3 -> _subblocks f = 4 -> samples f = 50 ->
  well_formed_payload 2 f ->
  _blockSize f = 32 /\
  exists f1 f2,
    _makeNewSamples f = (1, f1) /\
    _samplesReady f1 = 32 /\ samplesLeft f1 = 18 /\
    _makeNewSamples (consume 32 f1) = (1, f2) /\
    _samplesReady f2 = 18 /\ samplesLeft f2 = 0 /\
    readSamples f 50 = Some (buffered 32 f1 ++ buffered 18 f2, consume 18 f2) /\
    List.length (buffered 32 f1 ++ buffered 18 f2) = 50%nat /\
    _samplesReady (consume 18 f2) = 0 /\ samplesLeft (consume 18 f2) = 0 /\
    forall count, readSamples (consume 18 f2) count = Some ([], consume 18 f2).
Proof.
  unfold samples, samplesLeft. intros Hc Hlev Hsub Hs Hp.
  pose proof (constructed_blockSize stream f Hc) as Hb.
  rewrite Hlev, Hsub in Hb. change (Z.shiftl 1 3 * 4) with 32 in Hb.
  split; [ exact Hb | ].
  destruct (constructed_well_formed stream f Hc) as (_ & Hr0 & Hl0 & _).
  rewrite Hs in Hl0.
  pose proof (constructed_accounted stream f Hc ltac:(lia) ltac:(lia)) as Hacc.
  (* first refill *)
  destruct (payload_refill 1 f Hp) as (f1 & Hm1 & Hp1).
  destruct (accounted_refilled f f1 Hacc Hr0 ltac:(lia) Hm1)
    as (Hacc1 & _ & Hr1 & Hsum1 & _ & Hb1).
  rewrite Hb, Hl0 in Hr1. change (Z.min 32 50) with 32 in Hr1.
  assert (Hl1 : _samplesLeft f1 = 18) by lia.
  destruct (consume_accounted 32 f1 Hacc1 ltac:(lia))
    as (Hacc1' & Hr1' & Hl1' & Hb1' & Hp1').
  (* second refill *)
  destruct (payload_refill 0 (consume 32 f1) (proj2 (Hp1' 1%nat) Hp1))
    as (f2 & Hm2 & _).
  destruct (accounted_refilled (consume 32 f1) f2 Hacc1' ltac:(lia) ltac:(lia) Hm2)
    as (Hacc2 & _ & Hr2 & Hsum2 & _ & Hb2).
  rewrite Hb1', Hb1, Hb, Hl1', Hl1 in Hr2. change (Z.min 32 18) with 18 in Hr2.
  assert (Hl2 : _samplesLeft f2 = 0) by lia.
  destruct (consume_accounted 18 f2 Hacc2 ltac:(lia)) as (_ & Hr2' & Hl2' & _).
  assert (Hend : forall count,
            readSamples (consume 18 f2) count = Some ([], consume 18 f2))
    by (intros count; apply readSamples_at_end; lia).
  exists f1, f2. repeat split; try assumption; try lia.
  - rewrite (readSamples_one_block f f1 50 32 Hacc Hr0 ltac:(lia) Hm1 ltac:(lia) ltac:(lia)).
    change (50 - 32)%nat with 18%nat.
    rewrite (readSamples_one_block (consume 32 f1) f2 18 18 Hacc1'
               ltac:(lia) ltac:(lia) Hm2 ltac:(lia) ltac:(lia)).
    rewrite Nat.sub_diag. cbn [readSamples]. rewrite app_nil_r. reflexivity.
  - unfold buffered. rewrite length_app, !length_map, !length_firstn, !length_skipn.
    destruct Hacc1 as [_ Hblock1 _ _ _ _ _], Hacc2 as [_ Hblock2 _ _ _ _ _].
    rewrite (refilled_cursor f f1 Hm1), (refilled_cursor (consume 32 f1) f2 Hm2).
    lia.
Qed.

Lemma fifty_samples_two_refills_witness :
  exists f1 f2 : File Sample.plain,
    readSamples Sample.fresh 50
      = Some (buffered 32 f1 ++ buffered 18 f2, consume 18 f2) /\
    _samplesReady (consume 18 f2) = 0 /\ samplesLeft (consume 18 f2) = 0.
Proof.
  destruct (fifty_samples_two_refills Sample.plain Sample.container Sample.fresh
              fresh_constructed eq_refl eq_refl eq_refl ltac:(vm_compute; reflexivity))
    as (_ & f1 & f2 & _ & _ & _ & _ & _ & _ & Hread & _ & Hr & Hl & _).
  exists f1, f2. repeat split; assumption.
Defined.

(** C9 as the specification words it fails: on the sample container
    ([levels = 3], [subblocks = 4], 50 samples, two payload blocks) the
    call for 50 samples delivers 50 and ends with [samplesReady] at 0,
    not at 14. *)
Lemma samplesReady_not_14_counterexample :
  construct Sample.plain Sample.container = inr Sample.fresh /\
  _levels Sample.fresh = 3 /\ _subblocks Sample.fresh = 4 /\
  _blockSize Sample.fresh = 32 /\ samples Sample.fresh = 50 /\
  exists out f',
    readSamples Sample.fresh 50 = Some (out, f') /\
    List.length out = 50%nat /\
    _samplesReady f' = 0 /\ _samplesReady f' <> 14.
Proof.
  split; [ exact fresh_constructed | ].
  repeat (split; [ reflexivity | ]).
  eexists _, _. split; [ vm_compute; reflexivity | ].
  split; [ reflexivity | ]. split; [ reflexivity | discriminate ].
Qed.

(** ** Rewind and replay *)

Section Replay.

Context {K : Codec}.
Implicit Types f g : File K.

Lemma unchanged_refl f : unchanged f f.
Proof. split; reflexivity. Qed.

Lemma unchanged_trans f g h : unchanged f g -> unchanged g h -> unchanged f h.
Proof. intros [] []; split; congruence. Qed.

Lemma unchanged_advance f : unchanged f (advance f).
Proof. split; reflexivity. Qed.

Lemma unchanged_rewind f : unchanged f (rewind f).
Proof. split; reflexivity. Qed.

Lemma unchanged_makeNewSamples f : unchanged f (snd (_makeNewSamples f)).
Proof.
  pose proof (getOneBlock_length K (_unpacker f) (_stream f) (_block f)) as Hlen.
  destruct (makeNewSamples_cases f) as [(u & pos & b & Hg) | (u & pos & b & Hg)];
    rewrite Hg in Hlen; cbn [snd] in Hlen.
  - rewrite (makeNewSamples_failure f u pos b Hg). split; try reflexivity.
    exact Hlen.
  - destruct (makeNewSamples_success f u pos b Hg)
      as (f1 & Hm & Hs & _ & _ & Hb & _ & _ & _ & Hlev & Hsub & Hbs & Hsm & Hch & Hbr).
    rewrite Hm; cbn [snd]. split; try assumption.
    + now rewrite Hs.
    + now rewrite Hs.
    + rewrite Hb, decodeData_length. exact Hlen.
Qed.

Lemma readSamples_unchanged (count : nat) f out f' :
  readSamples f count = Some (out, f') -> unchanged f f'.
Proof.
  revert f out f'; induction count as [ | n IH ]; intros f out f' Hread.
  { injection Hread as _ <-. apply unchanged_refl. }
  assert (Hemit : forall g out g',
            emit (fun h => readSamples h n) g = Some (out, g') -> unchanged g g').
  { intros g o g' He. unfold emit in He.
    destruct (nth_error (_block g) (_values g)); [ | discriminate ].
    destruct (readSamples (advance g) n) as [[o' g''] | ] eqn:Hr; [ | discriminate ].
    injection He as _ <-.
    apply (unchanged_trans g (advance g)); [ apply unchanged_advance | ].
    apply (IH _ _ _ Hr). }
  cbn [readSamples] in Hread.
  destruct (_samplesReady f =? 0).
  - destruct (_samplesLeft f =? 0).
    { injection Hread as _ <-. apply unchanged_refl. }
    pose proof (unchanged_makeNewSamples f) as Hu.
    destruct (_makeNewSamples f) as [made f1]; cbn [snd] in Hu.
    destruct (made =? 0).
    + injection Hread as _ <-. exact Hu.
    + apply (unchanged_trans f f1); [ exact Hu | apply (Hemit _ _ _ Hread) ].
  - apply (Hemit _ _ _ Hread).
Qed.

Lemma run_unchanged (calls : list Call) f out f' :
  run f calls = Some (out, f') -> unchanged f f'.
Proof.
  revert f out f'; induction calls as [ | [count | ] rest IH ]; intros f out f' Hrun;
    cbn [run] in Hrun.
  - injection Hrun as _ <-. apply unchanged_refl.
  - destruct (readSamples f count) as [[o f1] | ] eqn:Hr; [ | discriminate ].
    destruct (run f1 rest) as [[o' f2] | ] eqn:Hr'; [ | discriminate ].
    injection Hrun as _ <-.
    apply (unchanged_trans f f1);
      [ apply (readSamples_unchanged _ _ _ _ Hr) | apply (IH _ _ _ Hr') ].
  - apply (unchanged_trans f (rewind f)); [ apply unchanged_rewind | ].
    apply (IH _ _ _ Hrun).
Qed.










Section Independent.

Variable f0 : File K.
Hypothesis Hind : refill_independent f0.




End Independent.

End Replay.

(** ** The sample codecs and the refill *)

Lemma plain_refill_independent (f0 : File Sample.plain) : refill_independent f0.
Proof.
  intros u d1 d2 p b1 b2 _ _ _ H1 H2 s.
  cbn [getOneBlock decodeData Sample.plain].
  unfold Sample.bytes_getOneBlock. rewrite H1, H2.
  destruct (readBytes (List.length (_block f0)) s) as [[bs s'] | ]; cbn [fst snd].
  - split; reflexivity.
  - split; [ reflexivity | discriminate ].
Qed.




















(** * Further properties of the streaming decoder *)

Section MoreStreaming.

Context {K : Codec}.
Implicit Types f g : File K.

(** What taking [n] samples out of the buffer touches: the cursor and
    the count of buffered samples, nothing else. *)
Lemma consume_fields (n : nat) f :
  Z.of_nat n <= _samplesReady f < 2 ^ 31 ->
  _stream (consume n f) = _stream f /\
  _unpacker (consume n f) = _unpacker f /\
  _decoder (consume n f) = _decoder f /\
  _block (consume n f) = _block f /\
  _samplesLeft (consume n f) = _samplesLeft f /\
  _samplesReady (consume n f) = _samplesReady f - Z.of_nat n /\
  _values (consume n f) = (_values f + n)%nat.
Proof.
  revert f; induction n as [ | n IH ]; intros f Hn; cbn [consume].
  - repeat split; lia.
  - assert (E : to_int32 (_samplesReady f - 1) = _samplesReady f - 1)
      by (apply to_int32_id; unfold in_int32; lia).
    destruct (IH (advance f)) as (Hs & Hu & Hd & Hb & Hl & Hr & Hv).
    { cbn [advance _samplesReady]. rewrite E. lia. }
    rewrite Hs, Hu, Hd, Hb, Hl, Hr, Hv.
    cbn [advance _stream _unpacker _decoder _block _samplesLeft _samplesReady _values].
    rewrite E. repeat split; lia.
Qed.

End MoreStreaming.

(** X1.  Reading in two calls.  When a call for [a] samples delivers all
    [a] of them, a single call for [a + b] samples delivers what that
    call and a following call for [b] samples deliver, one after the
    other, and leaves the same object.  When the call for [a] samples
    comes back short, the call for [a + b] samples comes back with the
    same samples and the same object; when it runs outside the buffer,
    so does the longer call. *)
Theorem readSamples_in_two_calls (K : Codec) (f : File K) (a b : nat) :
  (readSamples f a = None -> readSamples f (a + b) = None) /\
  (forall out1 f1,
     readSamples f a = Some (out1, f1) ->
     (List.length out1 = a ->
      readSamples f (a + b) =
        match readSamples f1 b with
        | None => None
        | Some (out2, f2) => Some (out1 ++ out2, f2)
        end) /\
     (List.length out1 <> a -> readSamples f (a + b) = Some (out1, f1))).
Proof.
  revert f; induction a as [ | a IH ]; intros f.
  { split; [ discriminate | ]. intros out1 f1 H. injection H as <- <-.
    cbn [Nat.add app List.length]. split; [ intros _ | intros H; now contradiction H ].
    destruct (readSamples f b) as [[out2 f2] | ]; reflexivity. }
  assert (Hemit : forall g : File K,
    (emit (fun h => readSamples h a) g = None ->
     emit (fun h => readSamples h (a + b)) g = None) /\
    (forall out1 f1,
       emit (fun h => readSamples h a) g = Some (out1, f1) ->
       (List.length out1 = S a ->
        emit (fun h => readSamples h (a + b)) g =
          match readSamples f1 b with
          | None => None
          | Some (out2, f2) => Some (out1 ++ out2, f2)
          end) /\
       (List.length out1 <> S a ->
        emit (fun h => readSamples h (a + b)) g = Some (out1, f1)))).
  { intros g. unfold emit.
    destruct (nth_error (_block g) (_values g)) as [x | ];
      [ | split; [ reflexivity | discriminate ] ].
    destruct (IH (advance g)) as [Hnone Hsome].
    destruct (readSamples (advance g) a) as [[o g1] | ].
    - split; [ discriminate | ].
      intros out1 f1 H. injection H as <- <-.
      destruct (Hsome o g1 eq_refl) as [Hfull Hshort].
      cbn [List.length]. split; intros Hlen.
      + rewrite (Hfull ltac:(lia)).
        destruct (readSamples g1 b) as [[out2 f2] | ]; reflexivity.
      + rewrite (Hshort ltac:(lia)). reflexivity.
    - split; [ | discriminate ]. intros _. now rewrite (Hnone eq_refl). }
  cbn [Nat.add readSamples].
  destruct (_samplesReady f =? 0).
  - destruct (_samplesLeft f =? 0).
    { split; [ discriminate | ]. intros out1 f1 H. injection H as <- <-.
      cbn [List.length]. split; [ discriminate | reflexivity ]. }
    destruct (_makeNewSamples f) as [made f1].
    destruct (made =? 0); [ | apply Hemit ].
    split; [ discriminate | ]. intros out1 f2 H. injection H as <- <-.
    cbn [List.length]. split; [ discriminate | reflexivity ].
  - apply Hemit.
Qed.

Lemma readSamples_in_two_calls_witness :
  exists out1 f1,
    readSamples Sample.fresh 20 = Some (out1, f1) /\
    readSamples Sample.fresh (20 + 30) =
      match readSamples f1 30 with
      | None => None
      | Some (out2, f2) => Some (out1 ++ out2, f2)
      end.
Proof.
  destruct (readSamples Sample.fresh 20) as [[out1 f1] | ] eqn:E.
  - exists out1, f1. split; [ reflexivity | ].
    apply (proj2 (readSamples_in_two_calls Sample.plain Sample.fresh 20 30) out1 f1 E).
    apply (f_equal (option_map (fun r => List.length (fst r)))) in E.
    vm_compute in E. now injection E.
  - vm_compute in E. discriminate.
Defined.

(** X2.  No call writes more values than it is asked for. *)
Theorem readSamples_at_most_count (K : Codec) (f : File K) (count : nat)
    (out : list Z) (f' : File K) :
  readSamples f count = Some (out, f') -> (List.length out <= count)%nat.
Proof.
  revert f out f'; induction count as [ | n IH ]; intros f out f' Hread.
  { injection Hread as <- _. cbn; lia. }
  assert (Hemit : forall (g : File K) o g',
            emit (fun h => readSamples h n) g = Some (o, g') ->
            (List.length o <= S n)%nat).
  { intros g o g' He. unfold emit in He.
    destruct (nth_error (_block g) (_values g)); [ | discriminate ].
    destruct (readSamples (advance g) n) as [[o' g''] | ] eqn:Hr; [ | discriminate ].
    injection He as <- _. cbn [List.length]. pose proof (IH _ _ _ Hr). lia. }
  cbn [readSamples] in Hread.
  destruct (_samplesReady f =? 0).
  - destruct (_samplesLeft f =? 0).
    { injection Hread as <- _. cbn; lia. }
    destruct (_makeNewSamples f) as [made f1].
    destruct (made =? 0); [ | apply (Hemit _ _ _ Hread) ].
    injection Hread as <- _. cbn; lia.
  - apply (Hemit _ _ _ Hread).
Qed.

Lemma readSamples_at_most_count_witness :
  exists out f',
    readSamples Sample.fresh 7 = Some (out, f') /\ (List.length out <= 7)%nat.
Proof.
  destruct (readSamples Sample.fresh 7) as [[out f'] | ] eqn:E.
  - exists out, f'. split; [ reflexivity | ].
    apply (readSamples_at_most_count Sample.plain Sample.fresh 7 out f' E).
  - vm_compute in E. discriminate.
Defined.

(** X3.  A call that the buffered samples can serve does not reach the
    collaborators: it delivers the next [count] buffered slots and
    leaves the stream, the unpacker, the decoder, the block buffer and
    [_samplesLeft] as they are; only [_samplesReady] goes down by
    [count]. *)
Theorem buffered_read_is_local (K : Codec) (f : File K) (count : nat) :
  Z.of_nat count <= _samplesReady f < 2 ^ 31 ->
  (_values f + count <= List.length (_block f))%nat ->
  exists f',
    readSamples f count = Some (buffered count f, f') /\
    List.length (buffered count f) = count /\
    _stream f' = _stream f /\
    _unpacker f' = _unpacker f /\
    _decoder f' = _decoder f /\
    _block f' = _block f /\
    samplesLeft f' = samplesLeft f /\
    _samplesReady f' = _samplesReady f - Z.of_nat count.
Proof.
  intros Hr Hv. exists (consume count f).
  rewrite (readSamples_buffered f count count (le_n count) Hr Hv).
  rewrite Nat.sub_diag. cbn [readSamples]. rewrite app_nil_r.
  destruct (consume_fields count f Hr) as (Hs & Hu & Hd & Hb & Hl & Hrd & _).
  unfold samplesLeft. repeat split; try assumption.
  unfold buffered. rewrite length_map, length_firstn, length_skipn. lia.
Qed.

Lemma buffered_read_is_local_witness :
  exists f',
    readSamples (snd (_makeNewSamples Sample.fresh)) 10
      = Some (buffered 10 (snd (_makeNewSamples Sample.fresh)), f') /\
    _stream f' = _stream (snd (_makeNewSamples Sample.fresh)) /\
    _samplesReady f' = 22.
Proof.
  destruct (buffered_read_is_local Sample.plain (snd (_makeNewSamples Sample.fresh)) 10)
    as (f' & Hread & _ & Hs & _ & _ & _ & _ & Hr).
  - vm_compute. split; [ discriminate | reflexivity ].
  - vm_compute. repeat constructor.
  - exists f'. rewrite Hr. repeat split; assumption.
Defined.

(** X4.  Whatever calls are made on a constructed object, it keeps its
    shape: the buffer has [_blockSize >= 0] slots, the counters stay in
    the range of [int32_t], and the geometry, the totals, the bytes and
    the little-endian mode of the stream are those of construction. *)
Theorem reachable_objects_keep_shape (K : Codec) (stream : Stream.t)
    (f0 f : File K) (calls : list Call) (out : list Z) :
  construct K stream = inr f0 ->
  run f0 calls = Some (out, f) ->
  well_formed f /\
  _levels f = _levels f0 /\ _subblocks f = _subblocks f0 /\
  _blockSize f = _blockSize f0 /\
  samples f = samples f0 /\ channels f = channels f0 /\ bitrate f = bitrate f0 /\
  data (_stream f) = data stream /\ endianness (_stream f) = LITTLE.
Proof.
  intros Hc Hrun.
  destruct (constructed_well_formed stream f0 Hc) as (Hwf & _ & _ & _ & Hs).
  pose proof (run_well_formed calls f0 out f Hwf Hrun) as Hwf'.
  destruct (run_unchanged calls f0 out f Hrun)
    as [Hdata Hend Hlev Hsub Hbs Hsm Hch Hbr _].
  unfold samples, channels, bitrate.
  rewrite Hdata, Hend, Hs. split; [ exact Hwf' | ].
  repeat split; assumption.
Qed.

Lemma reachable_objects_keep_shape_witness :
  well_formed Sample.paused /\ _blockSize Sample.paused = 32 /\
  endianness (_stream Sample.paused) = LITTLE.
Proof.
  destruct (reachable_objects_keep_shape Sample.plain Sample.container Sample.fresh
              Sample.paused [ReadSamples 40]
              (firstn 40 (map (fun x => Z.shiftr (Sample.byte_value x) 3)
                              Sample.payload_bytes))
              fresh_constructed ltac:(vm_compute; reflexivity))
    as (Hwf & _ & _ & Hb & _ & _ & _ & _ & He).
  split; [ exact Hwf | split; assumption ].
Defined.

(** X5.  The header size [rewind] seeks to is the number of bytes the
    constructor reads: on a freshly constructed object whose unpacker
    [reset] leaves as [init] made it, [rewind] changes nothing at all. *)
Theorem rewind_of_fresh_object (K : Codec) (stream : Stream.t) (f0 : File K) :
  construct K stream = inr f0 ->
  unpacker_reset K (_unpacker f0) = _unpacker f0 ->
  rewind f0 = f0.
Proof.
  intros Hc Hreset.
  destruct (constructed_well_formed stream f0 Hc) as (_ & Hr & Hl & _ & Hs).
  destruct f0 as [s l lev sub bs b v r u d sm ch br].
  unfold rewind. cbn in *. subst. rewrite Hreset. reflexivity.
Qed.

Lemma rewind_of_fresh_object_witness : rewind Sample.fresh = Sample.fresh.
Proof.
  apply (rewind_of_fresh_object Sample.plain Sample.container Sample.fresh
           fresh_constructed).
  reflexivity.
Defined.




(** * Script files: reading the tables *)

(** ** Reads at a known offset

    The reads move the cursor only: every stream met while parsing is
    the input stream with another position. *)

Lemma setPosition_again (p q : nat) (s : Stream.t) :
  setPosition p (setPosition q s) = setPosition p s.
Proof. reflexivity. Qed.

Lemma readBytes_at (n p : nat) (s : Stream.t) :
  readBytes n (setPosition p s) =
    if (p + n <=? size s)%nat
    then Some (bytes_at p n s, setPosition (p + n) s)
    else None.
Proof. reflexivity. Qed.

Lemma uint32_at (p : nat) (s : Stream.t) :
  uint32 (setPosition p s) =
    if (p + 4 <=? size s)%nat
    then Some (value_at p 4 s, setPosition (p + 4) s)
    else None.
Proof.
  unfold uint32, bind. rewrite readBytes_at.
  destruct (p + 4 <=? size s)%nat; reflexivity.
Qed.

Lemma uint16_at (p : nat) (s : Stream.t) :
  uint16 (setPosition p s) =
    if (p + 2 <=? size s)%nat
    then Some (value_at p 2 s, setPosition (p + 2) s)
    else None.
Proof.
  unfold uint16, bind. rewrite readBytes_at.
  destruct (p + 2 <=? size s)%nat; reflexivity.
Qed.

Lemma bytes_at_cons (p n : nat) (s : Stream.t) (b : byte) :
  nth_error (data s) p = Some b ->
  bytes_at p (S n) s = b :: bytes_at (S p) n s.
Proof.
  intros H. unfold bytes_at. rewrite (skipn_nth_error _ _ _ H). reflexivity.
Qed.

Lemma uint8_at (p : nat) (s : Stream.t) :
  uint8 (setPosition p s) =
    match nth_error (data s) p with
    | Some b => Some (b, setPosition (S p) s)
    | None => None
    end.
Proof.
  unfold uint8, bind. rewrite readBytes_at.
  destruct (nth_error (data s) p) as [b | ] eqn:E.
  - assert (p < size s)%nat by (apply nth_error_Some; unfold size; congruence).
    destruct (p + 1 <=? size s)%nat eqn:L; [ | apply Nat.leb_gt in L; lia ].
    rewrite (bytes_at_cons p 0 s b E). cbn. now rewrite Nat.add_1_r.
  - apply nth_error_None in E.
    destruct (p + 1 <=? size s)%nat eqn:L; [ apply Nat.leb_le in L | reflexivity ].
    unfold size in L. lia.
Qed.

Lemma read_name_at (len p : nat) (s : Stream.t) :
  (p <= size s)%nat ->
  Int.read_name len (setPosition p s) =
    if (p + len <=? size s)%nat
    then Some (filter Int.nonzero (bytes_at p len s), setPosition (p + len) s)
    else None.
Proof.
  revert p; induction len as [ | len IH ]; intros p Hp.
  - cbn [Int.read_name]. unfold ret, bytes_at. rewrite Nat.add_0_r. cbn [firstn filter].
    apply Nat.leb_le in Hp. now rewrite Hp.
  - cbn [Int.read_name]. unfold bind at 1. rewrite uint8_at.
    destruct (nth_error (data s) p) as [b | ] eqn:E.
    + assert (Hlt : (p < size s)%nat)
        by (apply nth_error_Some; unfold size; congruence).
      unfold bind. rewrite (IH (S p) Hlt).
      replace (S p + len)%nat with (p + S len)%nat by lia.
      destruct (p + S len <=? size s)%nat; [ | reflexivity ].
      rewrite (bytes_at_cons p len s b E). cbn [filter]. unfold ret, Int.nonzero.
      destruct (Byte.eqb b x00); reflexivity.
    + apply nth_error_None in E. fold (size s) in E.
      destruct (p + S len <=? size s)%nat eqn:L; [ apply Nat.leb_le in L; lia | ].
      reflexivity.
Qed.

Ltac read_uint32 :=
  unfold bind at 1; rewrite uint32_at;
  match goal with
  | |- context [(?a <=? ?b)%nat] =>
      let L := fresh "L" in
      destruct (a <=? b)%nat eqn:L;
      [ apply Nat.leb_le in L | apply Nat.leb_gt in L ]
  end.

Lemma read_procedures_at (n p : nat) (s : Stream.t) :
  (p <= size s)%nat ->
  Int.read_procedures n (setPosition p s) =
    if (p + 24 * n <=? size s)%nat
    then Some (map (fun i => value_at (p + 24 * i) 4 s) (seq 0 n),
               map (fun i => Int.procedure_at (p + 24 * i) s) (seq 0 n),
               setPosition (p + 24 * n) s)
    else None.
Proof.
  revert p; induction n as [ | n IH ]; intros p Hp.
  - cbn [Int.read_procedures seq map]. unfold ret.
    rewrite Nat.mul_0_r, Nat.add_0_r.
    apply Nat.leb_le in Hp. now rewrite Hp.
  - assert (Hfail : forall q, (size s < q <= p + 24 * S n)%nat ->
              (p + 24 * S n <=? size s)%nat = false)
      by (intros q Hq; apply Nat.leb_gt; lia).
    cbn [Int.read_procedures].
    read_uint32; [ | now rewrite (Hfail (p + 4)%nat ltac:(lia)) ].
    read_uint32; [ | now rewrite (Hfail (p + 4 + 4)%nat ltac:(lia)) ].
    read_uint32; [ | now rewrite (Hfail (p + 4 + 4 + 4)%nat ltac:(lia)) ].
    read_uint32; [ | now rewrite (Hfail (p + 4 + 4 + 4 + 4)%nat ltac:(lia)) ].
    read_uint32; [ | now rewrite (Hfail (p + 4 + 4 + 4 + 4 + 4)%nat ltac:(lia)) ].
    read_uint32; [ | now rewrite (Hfail (p + 4 + 4 + 4 + 4 + 4 + 4)%nat ltac:(lia)) ].
    unfold bind at 1. rewrite (IH _ L4).
    replace (p + 4 + 4 + 4 + 4 + 4 + 4 + 24 * n)%nat with (p + 24 * S n)%nat by lia.
    destruct (p + 24 * S n <=? size s)%nat; [ | reflexivity ].
    replace (p + 4 + 4 + 4 + 4 + 4 + 4)%nat with (p + 24)%nat by lia.
    replace (p + 4 + 4 + 4 + 4 + 4)%nat with (p + 20)%nat by lia.
    replace (p + 4 + 4 + 4 + 4)%nat with (p + 16)%nat by lia.
    replace (p + 4 + 4 + 4)%nat with (p + 12)%nat by lia.
    replace (p + 4 + 4)%nat with (p + 8)%nat by lia.
    unfold ret. cbn [fst snd].
    change (seq 0 (S n)) with (0%nat :: seq 1 n).
    rewrite <- seq_shift, !map_cons, !map_map.
    rewrite (map_ext (fun i => value_at (p + 24 * S i) 4 s)
                     (fun i => value_at (p + 24 + 24 * i) 4 s))
      by (intros i; f_equal; lia).
    rewrite (map_ext (fun i => Int.procedure_at (p + 24 * S i) s)
                     (fun i => Int.procedure_at (p + 24 + 24 * i) s))
      by (intros i; f_equal; lia).
    unfold Int.procedure_at at 2.
    replace (p + 24 * 0)%nat with p by lia.
    reflexivity.
Qed.

(** ** The map of a table *)

Lemma map_at_insert_other (k k' : Z) (v : list byte) (m : Int.Table) :
  k' <> k -> Int.map_at k' (Int.insert k v m) = Int.map_at k' m.
Proof.
  intros Hne. induction m as [ | [k0 v0] rest IH ]; cbn [Int.insert Int.map_at].
  - destruct (k' =? k) eqn:E; [ apply Z.eqb_eq in E; contradiction | reflexivity ].
  - destruct (k <? k0) eqn:Elt; cbn [Int.map_at].
    + destruct (k' =? k) eqn:E; [ apply Z.eqb_eq in E; contradiction | reflexivity ].
    + destruct (k =? k0); cbn [Int.map_at]; [ reflexivity | ].
      now rewrite IH.
Qed.

Lemma map_at_insert_new (k : Z) (v : list byte) (m : Int.Table) :
  Int.map_at k m = None -> Int.map_at k (Int.insert k v m) = Some v.
Proof.
  induction m as [ | [k0 v0] rest IH ]; cbn [Int.insert Int.map_at]; intros Hnone.
  - now rewrite Z.eqb_refl.
  - destruct (k =? k0) eqn:E; [ discriminate | ].
    destruct (k <? k0); cbn [Int.map_at].
    + now rewrite Z.eqb_refl.
    + rewrite E. apply IH, Hnone.
Qed.

(** ** The table loop *)

Section TableLoop.

Variable s : Stream.t.
Variable start : nat.
Variable tableSize : Z.

Hypothesis small : Z.of_nat (size s) + 6 < 2 ^ 32.

(** The name of the entry at distance [j]. *)
Let name_of (j : nat) : list byte := Int.name_at (start + j + 2) s.

(** What holds at the head of the loop when [j] bytes are parsed and
    [m] is the map so far. *)
Record loop_invariant (j : nat) (m : Int.Table) : Prop := {
  keys_below : forall k v, Int.map_at k m = Some v -> k < Z.of_nat j + 6;
  entries_sound : forall k v,
    Int.map_at k m = Some v ->
    exists i, Int.entry start s tableSize i /\ (i < j)%nat /\
              k = Z.of_nat i + 6 /\ v = name_of i;
  entries_complete : forall i,
    Int.entry start s tableSize i -> (i < j)%nat ->
    Int.map_at (Z.of_nat i + 6) m = Some (name_of i);
  entries_ahead : forall i,
    Int.entry start s tableSize i ->
    (i < j)%nat \/ Int.entry_from start s tableSize j i;
  entry_current : Z.of_nat j < tableSize -> Int.entry start s tableSize j
}.

Lemma entry_from_le (j i : nat) :
  Int.entry_from start s tableSize j i -> (j <= i)%nat.
Proof.
  induction 1 as [ | i Hfrom IH Hlt ]; [ lia | ].
  unfold Int.next_entry. lia.
Qed.

Lemma entry_from_step (j i : nat) :
  Int.entry_from start s tableSize j i ->
  i = j \/ Int.entry_from start s tableSize (Int.next_entry start s j) i.
Proof.
  induction 1 as [ | i Hfrom IH Hlt ]; [ now left | right ].
  destruct IH as [-> | IH].
  - apply Int.entry_here.
  - apply Int.entry_next; assumption.
Qed.

Lemma entry_below (i : nat) :
  Int.entry start s tableSize i -> Z.of_nat i < tableSize.
Proof.
  intros [Hpos Hfrom]. destruct Hfrom; [ lia | assumption ].
Qed.

Lemma loop_invariant_start : loop_invariant 0 [].
Proof.
  split.
  - discriminate.
  - discriminate.
  - intros i _ Hlt. lia.
  - intros i [_ Hfrom]. now right.
  - intros Hpos. split; [ lia | apply Int.entry_here ].
Qed.

Lemma loop_invariant_step (j : nat) (m : Int.Table) :
  loop_invariant j m ->
  Z.of_nat j < tableSize ->
  loop_invariant (Int.next_entry start s j)
    (Int.insert (Z.of_nat j + 6) (name_of j) m).
Proof.
  intros [Hbelow Hsound Hcomplete Hahead Hcurrent] Hlt.
  pose proof (Hcurrent Hlt) as Hj.
  assert (Hnext : (j < Int.next_entry start s j)%nat) by (unfold Int.next_entry; lia).
  assert (Hnew : Int.map_at (Z.of_nat j + 6) m = None).
  { destruct (Int.map_at (Z.of_nat j + 6) m) as [v | ] eqn:E; [ | reflexivity ].
    pose proof (Hbelow _ _ E). lia. }
  split.
  - intros k v Hk.
    destruct (Z.eq_dec k (Z.of_nat j + 6)) as [-> | Hne]; [ lia | ].
    rewrite (map_at_insert_other _ _ _ _ Hne) in Hk.
    pose proof (Hbelow _ _ Hk). lia.
  - intros k v Hk.
    destruct (Z.eq_dec k (Z.of_nat j + 6)) as [-> | Hne].
    + rewrite (map_at_insert_new _ _ _ Hnew) in Hk. injection Hk as <-.
      exists j. repeat split; try assumption; apply Hj.
    + rewrite (map_at_insert_other _ _ _ _ Hne) in Hk.
      destruct (Hsound _ _ Hk) as (i & Hi & Hij & Hki & Hv).
      exists i. repeat split; try assumption; try lia; apply Hi.
  - intros i Hi Hlti.
    destruct (Hahead i Hi) as [Hbefore | Hfrom].
    + rewrite map_at_insert_other by lia. apply Hcomplete; assumption.
    + destruct (entry_from_step j i Hfrom) as [-> | Hfrom'].
      * apply map_at_insert_new, Hnew.
      * pose proof (entry_from_le _ _ Hfrom'). lia.
  - intros i Hi.
    destruct (Hahead i Hi) as [Hbefore | Hfrom]; [ left; lia | ].
    destruct (entry_from_step j i Hfrom) as [-> | Hfrom']; [ left; lia | now right ].
  - intros Hlt'. destruct Hj as [Hpos Hfrom]. split; [ assumption | ].
    apply Int.entry_next; assumption.
Qed.

(** At the exit of the loop the map holds the entries of the table, and
    nothing else. *)
Lemma loop_invariant_exit (j : nat) (m : Int.Table) :
  loop_invariant j m -> tableSize <= Z.of_nat j ->
  forall k v,
    Int.map_at k m = Some v <->
    exists i, Int.entry start s tableSize i /\ k = Z.of_nat i + 6 /\ v = name_of i.
Proof.
  intros [Hbelow Hsound Hcomplete Hahead Hcurrent] Hexit k v. split.
  - intros Hk. destruct (Hsound _ _ Hk) as (i & Hi & _ & Hki & Hv). eauto.
  - intros (i & Hi & -> & ->). apply Hcomplete; [ assumption | ].
    pose proof (entry_below i Hi). lia.
Qed.

Lemma read_table_loop (fuel j : nat) (m m' : Int.Table) (s' : Stream.t) :
  loop_invariant j m ->
  (start + j <= size s)%nat ->
  Int.read_table fuel tableSize (Z.of_nat j) m (setPosition (start + j) s)
    = Some (Some m', s') ->
  exists j',
    (j <= j')%nat /\ tableSize <= Z.of_nat j' /\
    (tableSize <= Z.of_nat j -> j' = j) /\
    (j' = j \/
     exists i, Int.entry start s tableSize i /\ j' = Int.next_entry start s i) /\
    (start + j' <= size s)%nat /\
    s' = setPosition (start + j') s /\ loop_invariant j' m'.
Proof.
  revert j m; induction fuel as [ | fuel IH ]; intros j m Hinv Hpos Hread.
  - cbn [Int.read_table] in Hread.
    destruct (Z.of_nat j <? tableSize) eqn:E; [ discriminate | ].
    apply Z.ltb_ge in E. injection Hread as <- <-.
    exists j. split; [ lia | ]. split; [ assumption | ].
    split; [ reflexivity | ]. split; [ now left | ]. split; [ assumption | ].
    split; [ reflexivity | assumption ].
  - cbn [Int.read_table] in Hread.
    destruct (Z.of_nat j <? tableSize) eqn:E.
    2:{ apply Z.ltb_ge in E. injection Hread as <- <-.
        exists j. split; [ lia | ]. split; [ assumption | ].
        split; [ reflexivity | ]. split; [ now left | ]. split; [ assumption | ].
        split; [ reflexivity | assumption ]. }
    apply Z.ltb_lt in E.
    unfold bind at 1 in Hread. rewrite uint16_at in Hread.
    destruct (start + j + 2 <=? size s)%nat eqn:L; [ | discriminate ].
    apply Nat.leb_le in L.
    unfold bind at 1 in Hread. rewrite (read_name_at _ _ _ L) in Hread.
    set (len := Z.to_nat (value_at (start + j) 2 s)) in *.
    destruct (start + j + 2 + len <=? size s)%nat eqn:L'; [ | discriminate ].
    apply Nat.leb_le in L'.
    assert (Hlen : 0 <= value_at (start + j) 2 s).
    { unfold value_at. apply le_value_range. }
    assert (Ej2 : to_uint32 (Z.of_nat j + 2) = Z.of_nat j + 2)
      by (unfold to_uint32; apply Z.mod_small; lia).
    rewrite Ej2 in Hread.
    assert (Ekey : to_uint32 (Z.of_nat j + 2 + 4) = Z.of_nat j + 6)
      by (unfold to_uint32; rewrite Z.mod_small; lia).
    assert (Ej : to_uint32 (Z.of_nat j + 2 + value_at (start + j) 2 s)
                 = Z.of_nat (Int.next_entry start s j)).
    { unfold to_uint32, Int.next_entry. fold len. rewrite Z.mod_small; lia. }
    rewrite Ekey, Ej in Hread.
    replace (start + j + 2 + len)%nat with (start + Int.next_entry start s j)%nat
      in Hread, L' by (unfold Int.next_entry; fold len; lia).
    assert (Ename : filter Int.nonzero (bytes_at (start + j + 2) len s) = name_of j).
    { unfold name_of, Int.name_at, len.
      replace (start + j + 2 - 2)%nat with (start + j)%nat by lia. reflexivity. }
    rewrite Ename in Hread.
    destruct (IH _ _ (loop_invariant_step j m Hinv E) L' Hread)
      as (j' & Hle & Hexit & _ & Hlast & Hpos' & Hs' & Hinv').
    exists j'. split; [ unfold Int.next_entry in Hle; lia | ].
    split; [ assumption | ]. split; [ intros Hout; lia | ].
    split.
    { right. destruct Hlast as [-> | Hlast]; [ | exact Hlast ].
      exists j. split; [ apply (entry_current j m Hinv E) | reflexivity ]. }
    split; [ assumption | ]. split; assumption.
Qed.

(** The bound of [table] is never reached: within it the loop has ended
    or a read has failed. *)
Lemma read_table_fuel (fuel : nat) (j : Z) (m : Int.Table) (p : nat)
    (s' : Stream.t) :
  (size s - p < fuel)%nat ->
  Int.read_table fuel tableSize j m (setPosition p s) <> Some (None, s').
Proof.
  revert j m p; induction fuel as [ | fuel IH ]; intros j m p Hfuel; [ lia | ].
  cbn [Int.read_table].
  destruct (j <? tableSize); [ | discriminate ].
  unfold bind at 1. rewrite uint16_at.
  destruct (p + 2 <=? size s)%nat eqn:L; [ | discriminate ].
  apply Nat.leb_le in L.
  unfold bind at 1. rewrite (read_name_at _ _ _ L).
  destruct (p + 2 + _ <=? size s)%nat eqn:L'; [ | discriminate ].
  apply IH. lia.
Qed.

End TableLoop.

(** The entries of a table form one chain. *)
Lemma entry_chain (s : Stream.t) (start : nat) (tableSize : Z) (j a b : nat) :
  Int.entry_from start s tableSize j a ->
  Int.entry_from start s tableSize j b ->
  Int.entry_from start s tableSize a b \/ Int.entry_from start s tableSize b a.
Proof.
  intros Ha Hb. induction Hb as [ | b Hb IH Hlt ]; [ now right | ].
  destruct IH as [Hab | Hba].
  - left. now apply Int.entry_next.
  - destruct (entry_from_step s start tableSize b a Hba) as [-> | Hnext].
    + left. apply Int.entry_next; [ apply Int.entry_here | assumption ].
    + now right.
Qed.

(** A table has one end. *)
Lemma table_end_unique (s : Stream.t) (start : nat) (tableSize : Z) (a b : nat) :
  Int.table_end start s tableSize a -> Int.table_end start s tableSize b -> a = b.
Proof.
  assert (Hlast : forall i i',
            Int.entry start s tableSize i -> Int.entry start s tableSize i' ->
            tableSize <= Z.of_nat (Int.next_entry start s i) ->
            Int.entry_from start s tableSize i i' -> i' = i).
  { intros i i' Hi Hi' Hend Hfrom.
    destruct (entry_from_step s start tableSize i i' Hfrom) as [-> | Hnext];
      [ reflexivity | ].
    pose proof (entry_from_le s start tableSize _ _ Hnext).
    pose proof (entry_below s start tableSize i' Hi'). lia. }
  intros [Ha [[Hemp ->] | (i & Hi & ->)]] [Hb [[Hemp' ->] | (i' & Hi' & ->)]].
  - reflexivity.
  - destruct Hi' as [Hpos _]. lia.
  - destruct Hi as [Hpos _]. lia.
  - destruct (entry_chain s start tableSize 0 i i' (proj2 Hi) (proj2 Hi')) as [H | H].
    + now rewrite (Hlast i i' Hi Hi' Ha H).
    + now rewrite (Hlast i' i Hi' Hi Hb H).
Qed.

(** A whole table read at offset [p]: where the cursor ends and what the
    map holds. *)
Lemma table_at (s : Stream.t) (p : nat) (tableSize : Z) (m : Int.Table)
    (s' : Stream.t) :
  Z.of_nat (size s) + 6 < 2 ^ 32 ->
  (p <= size s)%nat ->
  Int.table tableSize (setPosition p s) = Some (m, s') ->
  exists j,
    tableSize <= Z.of_nat j /\
    (tableSize <= 0 /\ j = 0%nat \/
     exists i, Int.entry p s tableSize i /\ j = Int.next_entry p s i) /\
    (p + j <= size s)%nat /\
    s' = setPosition (p + j) s /\
    forall k v,
      Int.map_at k m = Some v <->
      exists i, Int.entry p s tableSize i /\ k = Z.of_nat i + 6 /\
                v = Int.name_at (p + i + 2) s.
Proof.
  intros Hsmall Hp Htable. unfold Int.table in Htable.
  destruct (Int.read_table _ tableSize 0 [] (setPosition p s))
    as [[[m0 | ] s0] | ] eqn:Hread; try discriminate.
  injection Htable as <- <-.
  replace (setPosition p s) with (setPosition (p + 0) s) in Hread
    by (now rewrite Nat.add_0_r).
  change 0 with (Z.of_nat 0) in Hread.
  destruct (read_table_loop s p tableSize Hsmall _ 0 [] m0 s0
              (loop_invariant_start s p tableSize)
              ltac:(lia) Hread)
    as (j & _ & Hexit & Hempty & Hlast & Hpos & Hs & Hinv).
  exists j. split; [ assumption | ]. split.
  { destruct Hlast as [-> | Hlast]; [ left; cbn in Hexit; split; [ lia | reflexivity ] | now right ]. }
  split; [ assumption | ]. split; [ assumption | ].
  apply (loop_invariant_exit s p tableSize j m0 Hinv Hexit).
Qed.

(** ** The constructor *)

Lemma nth_error_seq_map {A : Type} (g : nat -> A) (n i : nat) :
  (i < n)%nat -> nth_error (map g (seq 0 n)) i = Some (g i).
Proof.
  intros Hi. apply map_nth_error.
  rewrite (nth_error_nth' (seq 0 n) 0%nat) by (rewrite length_seq; lia).
  now rewrite seq_nth.
Qed.

Lemma set_names_some (ids : Int.Table) (offsets : list Z)
    (procs named : list Int.Procedure) :
  List.length offsets = List.length procs ->
  Int.set_names ids offsets procs = Some named ->
  List.length named = List.length procs /\
  forall i o p,
    nth_error offsets i = Some o -> nth_error procs i = Some p ->
    exists nm, Int.map_at o ids = Some nm /\
               nth_error named i = Some (Int.setName nm p).
Proof.
  revert procs named; induction offsets as [ | o os IH ]; intros [ | p ps] named Hlen Hset;
    try discriminate; cbn [Int.set_names] in Hset.
  - injection Hset as <-. split; [ reflexivity | ]. intros [ | i ]; discriminate.
  - destruct (Int.map_at o ids) as [nm | ] eqn:Hat; [ | discriminate ].
    destruct (Int.set_names ids os ps) as [ps' | ] eqn:Hrest; [ | discriminate ].
    injection Hset as <-. injection Hlen as Hlen.
    destruct (IH ps ps' Hlen Hrest) as [Hl Hnth].
    split; [ cbn; now rewrite Hl | ].
    intros [ | i ] o' p' Ho Hp; cbn [nth_error] in *.
    + injection Ho as <-. injection Hp as <-. eauto.
    + apply (Hnth i o' p' Ho Hp).
Qed.

Lemma set_names_none (ids : Int.Table) (offsets : list Z)
    (procs : list Int.Procedure) :
  List.length offsets = List.length procs ->
  (Int.set_names ids offsets procs = None <->
   exists o, In o offsets /\ Int.map_at o ids = None).
Proof.
  revert procs; induction offsets as [ | o os IH ]; intros [ | p ps] Hlen;
    try discriminate; cbn [Int.set_names].
  - split; [ discriminate | intros (o & [] & _) ].
  - injection Hlen as Hlen. specialize (IH ps Hlen).
    destruct (Int.map_at o ids) as [nm | ] eqn:Hat.
    + destruct (Int.set_names ids os ps) as [ps' | ].
      * split; [ discriminate | ].
        intros (o' & [<- | Hin] & Hnone); [ congruence | ].
        destruct IH as [_ IH]. discriminate (IH (ex_intro _ o' (conj Hin Hnone))).
      * split; [ intros _ | reflexivity ].
        destruct IH as [IH _]. destruct (IH eq_refl) as (o' & Hin & Hnone).
        exists o'. split; [ now right | assumption ].
    + split; [ intros _ | reflexivity ].
      exists o. split; [ now left | assumption ].
Qed.

(** The reads of the constructor up to the end of the identifiers
    table, on the stream it prepares. *)
Lemma read_tables_at (stream : Stream.t) :
  let n := Z.to_nat (value_at 42 4 stream) in
  let base := (46 + 24 * n)%nat in
  Int.read_tables (setPosition 42 (setPosition 0 stream)) =
    if (base + 4 <=? size stream)%nat
    then
      match Int.table (value_at base 4 stream) (setPosition (base + 4) stream) with
      | Some (ids, s1) =>
          Some (map (fun i => value_at (46 + 24 * i) 4 stream) (seq 0 n),
                map (fun i => Int.procedure_at (46 + 24 * i) stream) (seq 0 n),
                ids, s1)
      | None => None
      end
    else None.
Proof.
  intros n base. rewrite setPosition_again. unfold Int.read_tables.
  assert (Hfail : forall q, (size stream < q <= base + 4)%nat ->
            (base + 4 <=? size stream)%nat = false)
    by (intros q Hq; apply Nat.leb_gt; lia).
  read_uint32; [ | now rewrite (Hfail 46%nat ltac:(unfold base; lia)) ].
  unfold bind at 1. change (42 + 4)%nat with 46%nat in *.
  rewrite (read_procedures_at _ _ _ L). fold n.
  destruct (46 + 24 * n <=? size stream)%nat eqn:L1;
    [ apply Nat.leb_le in L1
    | apply Nat.leb_gt in L1; now rewrite (Hfail base ltac:(unfold base; lia)) ].
  fold base. read_uint32; [ | reflexivity ].
  unfold bind at 1.
  destruct (Int.table (value_at base 4 stream) (setPosition (base + 4) stream))
    as [[ids s1] | ]; reflexivity.
Qed.

(** What a successful construction has gone through. *)
Lemma construct_inr (stream : Stream.t) (f : Int.File) :
  Int.construct stream = inr f ->
  let n := Z.to_nat (value_at 42 4 stream) in
  let base := (46 + 24 * n)%nat in
  exists s1 s3 stringsTable,
    (base + 4 <= size stream)%nat /\
    Int.table (value_at base 4 stream) (setPosition (base + 4) stream)
      = Some (Int.identifiers f, s1) /\
    Int.set_names (Int.identifiers f)
      (map (fun i => value_at (46 + 24 * i) 4 stream) (seq 0 n))
      (map (fun i => Int.procedure_at (46 + 24 * i) stream) (seq 0 n))
      = Some (Int.procedures f) /\
    uint32 (skipBytes 4 s1) = Some (stringsTable, s3) /\
    (stringsTable = 0xFFFFFFFF /\ Int.strings f = [] /\ Int._stream f = s3 \/
     stringsTable <> 0xFFFFFFFF /\
     Int.table stringsTable s3 = Some (Int.strings f, Int._stream f)).
Proof.
  intros Hc n base. unfold Int.construct in Hc.
  rewrite read_tables_at in Hc. fold n base in Hc.
  destruct (base + 4 <=? size stream)%nat eqn:L; [ | discriminate ].
  apply Nat.leb_le in L.
  destruct (Int.table (value_at base 4 stream) (setPosition (base + 4) stream))
    as [[ids s1] | ] eqn:Hids; [ | discriminate ].
  destruct (Int.set_names ids _ _) as [named | ] eqn:Hnames; [ | discriminate ].
  destruct (uint32 (skipBytes 4 s1)) as [[st s3] | ] eqn:Hst; [ | discriminate ].
  destruct (st =? 4294967295) eqn:E; cbn [negb] in Hc.
  - apply Z.eqb_eq in E. injection Hc as <-.
    exists s1, s3, st. cbn [Int.identifiers Int.procedures Int.strings Int._identifiers
                            Int._procedures Int._strings Int._stream].
    repeat split; try assumption. left. repeat split; assumption.
  - apply Z.eqb_neq in E.
    destruct (Int.table st s3) as [[strs s4] | ] eqn:Hstrs; [ | discriminate ].
    injection Hc as <-.
    exists s1, s3, st. cbn [Int.identifiers Int.procedures Int.strings Int._identifiers
                            Int._procedures Int._strings Int._stream].
    repeat split; try assumption. right. split; assumption.
Qed.

(** X7.  The procedures table.  A parsed script has as many procedures
    as the 32-bit count at offset 42 says; the [i]-th one is read from
    the 24 bytes at offset [46 + 24 i]: its name is the identifier
    found under the offset in the first four bytes, the other five words
    are its flags, delay, condition offset, body offset and arguments
    counter. *)
Theorem procedure_table_layout (stream : Stream.t) (f : Int.File) :
  Int.construct stream = inr f ->
  let n := Z.to_nat (value_at 42 4 stream) in
  List.length (Int.procedures f) = n /\
  forall i, (i < n)%nat ->
    exists p,
      nth_error (Int.procedures f) i = Some p /\
      Int.map_at (value_at (46 + 24 * i) 4 stream) (Int.identifiers f)
        = Some (Int.name p) /\
      Int.flags p = value_at (46 + 24 * i + 4) 4 stream /\
      Int.delay p = value_at (46 + 24 * i + 8) 4 stream /\
      Int.conditionOffset p = value_at (46 + 24 * i + 12) 4 stream /\
      Int.bodyOffset p = value_at (46 + 24 * i + 16) 4 stream /\
      Int.argumentsCounter p = value_at (46 + 24 * i + 20) 4 stream.
Proof.
  intros Hc n.
  destruct (construct_inr stream f Hc) as (s1 & s3 & st & _ & _ & Hnames & _).
  fold n in Hnames.
  assert (Hsame :
    List.length (map (fun i => value_at (46 + 24 * i) 4 stream) (seq 0 n))
    = List.length (map (fun i => Int.procedure_at (46 + 24 * i) stream) (seq 0 n)))
    by (now rewrite !length_map).
  destruct (set_names_some _ _ _ _ Hsame Hnames) as [Hlen Hnth].
  rewrite length_map, length_seq in Hlen. split; [ exact Hlen | ].
  intros i Hi.
  destruct (Hnth i _ _ (nth_error_seq_map _ n i Hi) (nth_error_seq_map _ n i Hi))
    as (nm & Hat & Hp).
  exists (Int.setName nm (Int.procedure_at (46 + 24 * i) stream)).
  repeat split; assumption.
Qed.

Lemma procedure_table_layout_witness :
  exists f,
    Int.construct Int.Sample.script = inr f /\
    List.length (Int.procedures f) = 2%nat.
Proof.
  destruct (Int.construct Int.Sample.script) as [e | f] eqn:E;
    [ vm_compute in E; discriminate | ].
  exists f. split; [ reflexivity | ].
  apply (procedure_table_layout Int.Sample.script f E).
Defined.

(** X8.  The identifiers table.  In a parsed script smaller than 4 GiB
    the identifiers are exactly the entries of the table that follows
    the procedures: an entry at distance [i] from the table contents is
    found under the key [i + 6], its offset from the 32-bit size field
    of the table, and holds the non-zero bytes of the name stored there;
    no other key is present.  In particular no name holds a zero byte. *)
Theorem identifiers_are_the_table_entries (stream : Stream.t) (f : Int.File) :
  Int.construct stream = inr f ->
  Z.of_nat (size stream) + 6 < 2 ^ 32 ->
  let base := (46 + 24 * Z.to_nat (value_at 42 4 stream))%nat in
  let tableSize := value_at base 4 stream in
  (forall k v,
     Int.map_at k (Int.identifiers f) = Some v <->
     exists i, Int.entry (base + 4) stream tableSize i /\
               k = Z.of_nat i + 6 /\ v = Int.name_at (base + 4 + i + 2) stream) /\
  (forall k v,
     Int.map_at k (Int.identifiers f) = Some v ->
     6 <= k /\ v = Int.name_at (base + Z.to_nat k) stream /\ ~ In x00 v).
Proof.
  intros Hc Hsmall base tableSize.
  destruct (construct_inr stream f Hc) as (s1 & s3 & st & Hpos & Hids & _).
  fold base tableSize in Hpos, Hids.
  destruct (table_at stream (base + 4) tableSize _ _ Hsmall Hpos Hids)
    as (j & _ & _ & _ & _ & Hmap).
  split; [ exact Hmap | ].
  intros k v Hk. destruct (proj1 (Hmap k v) Hk) as (i & _ & -> & ->).
  split; [ lia | ]. split.
  - f_equal. lia.
  - unfold Int.name_at. intros Hin. apply filter_In in Hin.
    destruct Hin as [_ Hnz]. discriminate.
Qed.

Lemma identifiers_are_the_table_entries_witness :
  exists f v,
    Int.construct Int.Sample.script = inr f /\
    Int.map_at 14 (Int.identifiers f) = Some v /\
    v = Int.name_at (94 + 14) Int.Sample.script.
Proof.
  destruct (Int.construct Int.Sample.script) as [e | f] eqn:E;
    [ vm_compute in E; discriminate | ].
  pose proof E as E'. vm_compute in E'. injection E' as E'.
  destruct (Int.map_at 14 (Int.identifiers f)) as [v | ] eqn:Hv;
    [ | rewrite <- E' in Hv; vm_compute in Hv; discriminate ].
  exists f, v. split; [ reflexivity | ]. split; [ exact Hv | ].
  apply (proj2 (identifiers_are_the_table_entries Int.Sample.script f E
                  ltac:(vm_compute; reflexivity)) 14 v Hv).
Defined.

(** X9.  The strings table.  The identifiers table ends behind its
    last entry, the only offset that is its end.  There the parser skips
    four bytes and reads the size of the strings table.  The value
    0xFFFFFFFF means that there is none: the strings are empty and the
    cursor stays behind that word.  Any other size is parsed like the
    identifiers: the strings are exactly the entries of that table, by
    their offset from its size field, and the cursor is left at the end
    of that table, behind its last entry. *)
Theorem strings_table_layout (stream : Stream.t) (f : Int.File) :
  Int.construct stream = inr f ->
  Z.of_nat (size stream) + 6 < 2 ^ 32 ->
  let base := (46 + 24 * Z.to_nat (value_at 42 4 stream))%nat in
  let tableSize := value_at base 4 stream in
  exists j,
    Int.table_end (base + 4) stream tableSize j /\
    (forall j0, Int.table_end (base + 4) stream tableSize j0 -> j0 = j) /\
    let sbase := (base + 4 + j + 4)%nat in
    let stringsTable := value_at sbase 4 stream in
    (stringsTable = 0xFFFFFFFF ->
     Int.strings f = [] /\ Int._stream f = setPosition (sbase + 4) stream) /\
    (stringsTable <> 0xFFFFFFFF ->
     exists j',
       Int.table_end (sbase + 4) stream stringsTable j' /\
       (forall j0, Int.table_end (sbase + 4) stream stringsTable j0 -> j0 = j') /\
       Int._stream f = setPosition (sbase + 4 + j') stream /\
       forall k v,
         Int.map_at k (Int.strings f) = Some v <->
         exists i, Int.entry (sbase + 4) stream stringsTable i /\
                   k = Z.of_nat i + 6 /\
                   v = Int.name_at (sbase + 4 + i + 2) stream).
Proof.
  intros Hc Hsmall base tableSize.
  destruct (construct_inr stream f Hc) as (s1 & s3 & st & Hpos & Hids & _ & Hst & Hstrings).
  fold base tableSize in Hpos, Hids.
  destruct (table_at stream (base + 4) tableSize _ _ Hsmall Hpos Hids)
    as (j & Hend & Hlast & Hj & -> & _).
  assert (Hj_end : Int.table_end (base + 4) stream tableSize j) by (split; assumption).
  exists j. split; [ assumption | ].
  split.
  { intros j0 Hj0. apply (table_end_unique stream (base + 4) tableSize j0 j Hj0 Hj_end). }
  intros sbase stringsTable.
  change (skipBytes 4 (setPosition (base + 4 + j) stream))
    with (setPosition sbase stream) in Hst.
  rewrite uint32_at in Hst.
  destruct (sbase + 4 <=? size stream)%nat eqn:L; [ | discriminate ].
  apply Nat.leb_le in L. injection Hst as <- <-. fold stringsTable in Hstrings.
  split.
  - intros Hmark. destruct Hstrings as [(_ & Hs & Hf) | [Hne _]];
      [ split; assumption | contradiction ].
  - intros Hne. destruct Hstrings as [(Hmark & _) | [_ Htable]]; [ contradiction | ].
    destruct (table_at stream (sbase + 4) stringsTable _ _ Hsmall L Htable)
      as (j' & Hend' & Hlast' & _ & Hs' & Hmap).
    assert (Hj'_end : Int.table_end (sbase + 4) stream stringsTable j')
      by (split; assumption).
    exists j'. split; [ assumption | ].
    split.
    { intros j0 Hj0.
      apply (table_end_unique stream (sbase + 4) stringsTable j0 j' Hj0 Hj'_end). }
    split; assumption.
Qed.

(** On the sample script the identifiers end 14 bytes into their table
    and the one string, of 6 bytes with its length, ends the stream. *)
Lemma strings_table_layout_witness :
  exists f,
    Int.construct Int.Sample.script = inr f /\
    Int._stream f = setPosition 126 Int.Sample.script /\
    exists v, Int.map_at 6 (Int.strings f) = Some v /\
              v = Int.name_at 122 Int.Sample.script.
Proof.
  destruct (Int.construct Int.Sample.script) as [e | f] eqn:E;
    [ vm_compute in E; discriminate | ].
  exists f. split; [ reflexivity | ].
  destruct (strings_table_layout Int.Sample.script f E ltac:(vm_compute; reflexivity))
    as (j & _ & Hj & Hrest).
  assert (E14 : 14%nat = j).
  { apply Hj. split; [ vm_compute; discriminate | right ].
    exists 8%nat. split; [ | reflexivity ].
    split; [ reflexivity | ].
    change 8%nat with (Int.next_entry 98 Int.Sample.script 0).
    apply Int.entry_next; [ apply Int.entry_here | reflexivity ]. }
  subst j. cbv zeta in Hrest. destruct Hrest as [_ Hrest].
  destruct Hrest as (j' & _ & Hj' & Hcursor & Hmap).
  { vm_compute. discriminate. }
  assert (E6 : 6%nat = j').
  { apply Hj'. split; [ vm_compute; discriminate | right ].
    exists 0%nat. split; [ | reflexivity ].
    split; [ reflexivity | apply Int.entry_here ]. }
  subst j'. split; [ exact Hcursor | ].
  eexists. split; [ | reflexivity ].
  apply Hmap. exists 0%nat. split; [ | split; reflexivity ].
  split; [ reflexivity | apply Int.entry_here ].
Defined.

(** X10.  A missing name.  Construction ends with [std::out_of_range]
    exactly when the tables up to the identifiers could be read and some
    procedure of the table gives, as the offset of its name, a key that
    the identifiers do not hold. *)
Theorem out_of_range_iff_unnamed (stream : Stream.t) :
  let n := Z.to_nat (value_at 42 4 stream) in
  let base := (46 + 24 * n)%nat in
  Int.construct stream = inl Int.out_of_range <->
  exists ids s1,
    (base + 4 <= size stream)%nat /\
    Int.table (value_at base 4 stream) (setPosition (base + 4) stream)
      = Some (ids, s1) /\
    exists i, (i < n)%nat /\
              Int.map_at (value_at (46 + 24 * i) 4 stream) ids = None.
Proof.
  intros n base. unfold Int.construct. rewrite read_tables_at. fold n base.
  set (offsets := map (fun i => value_at (46 + 24 * i) 4 stream) (seq 0 n)).
  set (procs := map (fun i => Int.procedure_at (46 + 24 * i) stream) (seq 0 n)).
  assert (Hlen : List.length offsets = List.length procs)
    by (unfold offsets, procs; now rewrite !length_map).
  assert (Hmissing : forall ids,
            Int.set_names ids offsets procs = None <->
            exists i, (i < n)%nat /\
                      Int.map_at (value_at (46 + 24 * i) 4 stream) ids = None).
  { intros ids. rewrite (set_names_none ids offsets procs Hlen). split.
    - intros (o & Hin & Hnone). unfold offsets in Hin.
      apply in_map_iff in Hin. destruct Hin as (i & <- & Hi).
      apply in_seq in Hi. exists i. split; [ lia | assumption ].
    - intros (i & Hi & Hnone). exists (value_at (46 + 24 * i) 4 stream).
      split; [ | assumption ]. unfold offsets. apply in_map_iff.
      exists i. split; [ reflexivity | apply in_seq; lia ]. }
  destruct (base + 4 <=? size stream)%nat eqn:L.
  2:{ split; [ discriminate | ]. intros (ids & s1 & Hpos & _).
      apply Nat.leb_gt in L. lia. }
  apply Nat.leb_le in L.
  destruct (Int.table (value_at base 4 stream) (setPosition (base + 4) stream))
    as [[ids s1] | ].
  2:{ split; [ discriminate | ]. intros (ids & s1 & _ & Habs & _). discriminate. }
  destruct (Int.set_names ids offsets procs) as [named | ] eqn:Hnames.
  - split.
    + intros Habs. exfalso.
      destruct (uint32 (skipBytes 4 s1)) as [[st s3] | ]; [ | discriminate ].
      destruct (negb (st =? 4294967295)); [ | discriminate ].
      destruct (Int.table st s3) as [[strs s4] | ]; discriminate.
    + intros (ids' & s1' & _ & Heq & Hmiss). injection Heq as <- <-.
      apply Hmissing in Hmiss. congruence.
  - split; [ intros _ | reflexivity ].
    exists ids, s1. split; [ assumption | ]. split; [ reflexivity | ].
    apply Hmissing, Hnames.
Qed.

Lemma out_of_range_iff_unnamed_witness :
  Int.construct Int.Sample.unnamed_script = inl Int.out_of_range.
Proof.
  apply (proj2 (out_of_range_iff_unnamed Int.Sample.unnamed_script)).
  eexists _, _. split; [ vm_compute; lia | ]. split; [ vm_compute; reflexivity | ].
  exists 1%nat. split; [ vm_compute; lia | vm_compute; reflexivity ].
Defined.

(** X12.  Looking a procedure up by name gives the first procedure of
    that name in table order, and nothing exactly when no procedure has
    that name. *)
Theorem procedure_lookup (f : Int.File) (n : list byte) :
  (forall p, Int.procedure f n = Some p ->
     exists before after,
       Int.procedures f = before ++ p :: after /\
       Int.name p = n /\
       forall q, In q before -> Int.name q <> n) /\
  (Int.procedure f n = None <->
   forall q, In q (Int.procedures f) -> Int.name q <> n).
Proof.
  unfold Int.procedure, Int.procedures.
  induction (Int._procedures f) as [ | q rest [IHsome IHnone] ]; cbn [Int.find_procedure].
  - split; [ discriminate | ]. split; [ intros _ q [] | reflexivity ].
  - destruct (list_eq_dec byte_eq_dec (Int.name q) n) as [Heq | Hne].
    + split.
      * intros p Hp. injection Hp as <-. exists [], rest.
        split; [ reflexivity | ]. split; [ assumption | intros q' [] ].
      * split; [ discriminate | ]. intros Hall.
        exfalso. apply (Hall q); [ now left | assumption ].
    + split.
      * intros p Hp. destruct (IHsome p Hp) as (before & after & -> & Hname & Hbefore).
        exists (q :: before), after. split; [ reflexivity | ].
        split; [ assumption | ].
        intros q' [<- | Hin]; [ assumption | now apply Hbefore ].
      * rewrite IHnone. split.
        -- intros Hall q' [<- | Hin]; [ assumption | now apply Hall ].
        -- intros Hall q' Hin. apply Hall. now right.
Qed.

Lemma procedure_lookup_witness :
  exists f p,
    Int.construct Int.Sample.script = inr f /\
    Int.procedure f [x72; x75; x6e] = Some p /\
    Int.name p = [x72; x75; x6e].
Proof.
  destruct (Int.construct Int.Sample.script) as [e | f] eqn:E;
    [ vm_compute in E; discriminate | ].
  pose proof E as E'. vm_compute in E'. injection E' as E'.
  destruct (Int.procedure f [x72; x75; x6e]) as [p | ] eqn:Hp;
    [ | rewrite <- E' in Hp; vm_compute in Hp; discriminate ].
  exists f, p. split; [ reflexivity | ]. split; [ exact Hp | ].
  destruct (proj1 (procedure_lookup f [x72; x75; x6e]) p Hp)
    as (before & after & _ & Hname & _).
  exact Hname.
Defined.

(** * Platform helpers: the data files *)

Section DataFiles.

Import CrossPlatform.

Lemma keep_patch_is_patch (dataFiles : list string) (d_name : string) :
  keep_patch dataFiles d_name =
    if is_patch (lowercase d_name) then lowercase d_name :: dataFiles
    else dataFiles.
Proof.
  unfold keep_patch, is_patch.
  destruct (4 <? String.length (lowercase d_name))%nat; [ | reflexivity ].
  destruct (substring _ 4 (lowercase d_name) =? ".dat")%string; [ | reflexivity ].
  reflexivity.
Qed.

Lemma fold_keep_patch (entries acc : list string) :
  fold_left keep_patch entries acc =
    rev (filter is_patch (map lowercase entries)) ++ acc.
Proof.
  revert acc; induction entries as [ | d rest IH ]; intros acc; [ reflexivity | ].
  cbn [fold_left map filter]. rewrite IH, keep_patch_is_patch.
  destruct (is_patch (lowercase d)); [ | reflexivity ].
  cbn [rev]. now rewrite <- app_assoc.
Qed.

Lemma tolower_fixed (c : Ascii.ascii) : tolower (tolower c) = tolower c.
Proof.
  destruct c as [[ | ] [ | ] [ | ] [ | ] [ | ] [ | ] [ | ] [ | ]]; reflexivity.
Qed.

Lemma lowercase_fixed (s : string) : lowercase (lowercase s) = lowercase s.
Proof.
  induction s as [ | c rest IH ]; [ reflexivity | ].
  cbn [lowercase]. now rewrite tolower_fixed, IH.
Qed.

(** The names [is_patch] accepts: ["patch"], three characters, [".dat"]. *)
Lemma is_patch_shape (filename : string) :
  is_patch filename = true <->
  exists a b c,
    filename = ("patch" ++ String a (String b (String c ".dat")))%string.
Proof.
  split.
  - unfold is_patch. intros H.
    apply andb_prop in H. destruct H as [H Hprefix].
    apply andb_prop in H. destruct H as [H Hlen].
    apply andb_prop in H. destruct H as [_ Hext].
    apply Nat.eqb_eq in Hlen. rewrite Hlen in Hext.
    do 12 (destruct filename as [ | ? filename ]; [ discriminate | ]).
    destruct filename; [ | discriminate ].
    cbn -[String.eqb] in Hext, Hprefix.
    apply String.eqb_eq in Hext, Hprefix.
    injection Hext as -> -> -> ->. injection Hprefix as -> -> -> -> ->.
    eexists _, _, _. reflexivity.
  - intros (a & b & c & ->). reflexivity.
Qed.

End DataFiles.

(** X13.  The list of data files.  With nothing cached, a data path
    found and its directory listed, [findFalloutDataFiles] returns the
    patch files of the listing, lower-cased, the later entries first,
    followed by [master.dat] and [critter.dat]; it returns and caches
    the same list.  A listed name counts as a patch file exactly when
    its lower-cased form is ["patch"], any three characters, [".dat"];
    every returned name is its own lower-cased form. *)
Theorem data_files_list (P : CrossPlatform.Platform) (st st1 : CrossPlatform.Statics)
    (path : string) (entries : list string) :
  CrossPlatform._dataFiles st = [] ->
  CrossPlatform.findFalloutDataPath P st = (inr path, st1) ->
  CrossPlatform.directory_entries P path = Some entries ->
  let files :=
    rev (filter CrossPlatform.is_patch (map CrossPlatform.lowercase entries))
    ++ ["master.dat"; "critter.dat"]%string in
  fst (CrossPlatform.findFalloutDataFiles P st) = inr files /\
  CrossPlatform._dataFiles (snd (CrossPlatform.findFalloutDataFiles P st)) = files /\
  (forall name,
     In name files <->
     name = "master.dat"%string \/ name = "critter.dat"%string \/
     exists d a b c,
       In d entries /\ name = CrossPlatform.lowercase d /\
       name = ("patch" ++ String a (String b (String c ".dat")))%string) /\
  (forall name, In name files -> CrossPlatform.lowercase name = name).
Proof.
  intros Hcold Hpath Hdir files.
  assert (Hcall : CrossPlatform.findFalloutDataFiles P st =
            (inr files,
             {| CrossPlatform._falloutDataPath := CrossPlatform._falloutDataPath st1;
                CrossPlatform._dataFiles := files |})).
  { unfold CrossPlatform.findFalloutDataFiles.
    rewrite Hcold, Hpath, Hdir, fold_keep_patch. reflexivity. }
  assert (Hin : forall name,
     In name files <->
     name = "master.dat"%string \/ name = "critter.dat"%string \/
     exists d a b c,
       In d entries /\ name = CrossPlatform.lowercase d /\
       name = ("patch" ++ String a (String b (String c ".dat")))%string).
  { intros name. unfold files. rewrite in_app_iff, <- in_rev, filter_In, in_map_iff.
    split.
    - intros [[(d & <- & Hd) Hpatch] | [<- | [<- | []]]]; auto.
      apply is_patch_shape in Hpatch. destruct Hpatch as (a & b & c & Hshape).
      right; right. exists d, a, b, c. auto.
    - intros [-> | [-> | (d & a & b & c & Hd & -> & Hshape)]].
      + right. now left.
      + right. right. now left.
      + left. split; [ eauto | ]. apply is_patch_shape. eauto. }
  rewrite Hcall. cbn [fst snd CrossPlatform._dataFiles].
  split; [ reflexivity | ]. split; [ reflexivity | ]. split; [ exact Hin | ].
  intros name Hname. apply Hin in Hname.
  destruct Hname as [-> | [-> | (d & _ & _ & _ & _ & -> & _)]];
    [ reflexivity | reflexivity | apply lowercase_fixed ].
Qed.

Lemma data_files_list_witness :
  fst (CrossPlatform.findFalloutDataFiles CrossPlatform.Sample.platform
         CrossPlatform.Sample.cold)
  = inr ["patch001.dat"; "patch000.dat"; "master.dat"; "critter.dat"]%string.
Proof.
  refine (proj1 (data_files_list CrossPlatform.Sample.platform CrossPlatform.Sample.cold
                   {| CrossPlatform._falloutDataPath := "/usr/share/falltergeist";
                      CrossPlatform._dataFiles := [] |}
                   "/usr/share/falltergeist" CrossPlatform.Sample.listing _ _ _));
    reflexivity.
Defined.

Lemma find_first (A : Type) (p : A -> bool) (l : list A) (x : A) :
  find p l = Some x ->
  exists before after,
    l = before ++ x :: after /\ p x = true /\
    forall y, In y before -> p y = false.
Proof.
  induction l as [ | a rest IH ]; cbn [find]; [ discriminate | ].
  destruct (p a) eqn:Ha.
  - intros H; injection H as <-. exists [], rest.
    split; [ reflexivity | ]. split; [ assumption | intros y [] ].
  - intros H. destruct (IH H) as (before & after & -> & Hx & Hbefore).
    exists (a :: before), after. split; [ reflexivity | ]. split; [ assumption | ].
    intros y [<- | Hy]; [ assumption | now apply Hbefore ].
Qed.

Lemma all_exist_both (P : CrossPlatform.Platform) (d : string) :
  CrossPlatform.all_exist P d =
    CrossPlatform.file_exists P (d ++ "/master.dat")
    && CrossPlatform.file_exists P (d ++ "/critter.dat").
Proof.
  unfold CrossPlatform.all_exist. cbn. now rewrite andb_true_r.
Qed.

Lemma find_the_first (A : Type) (p : A -> bool) (before after : list A) (x : A) :
  (forall y, In y before -> p y = false) -> p x = true ->
  find p (before ++ x :: after) = Some x.
Proof.
  intros Hbefore Hx. induction before as [ | a before IH ]; cbn [app find].
  - now rewrite Hx.
  - rewrite (Hbefore a (or_introl eq_refl)). apply IH.
    intros y Hy. apply Hbefore. now right.
Qed.

(** X14.  The search for the data path.  With nothing cached, the
    candidates are the working directory, then the data directories,
    then the CD drives (none when their detection throws).  When a
    candidate holds both [master.dat] and [critter.dat] and none before
    it does, the call returns that candidate and caches it, leaving the
    cached file list alone; when no candidate holds both, the call
    throws and caches nothing.  One of the two is always the case. *)
Theorem data_path_search (P : CrossPlatform.Platform) (st : CrossPlatform.Statics) :
  CrossPlatform._falloutDataPath st = ""%string ->
  let candidates :=
    CrossPlatform.executableDirectory P :: CrossPlatform.dataPaths P ++
    match CrossPlatform.cdDrivePaths P with
    | inr drives => drives
    | inl _ => []
    end in
  let holds_both d :=
    CrossPlatform.file_exists P (d ++ "/master.dat")
    && CrossPlatform.file_exists P (d ++ "/critter.dat") in
  (forall before d after,
     candidates = before ++ d :: after ->
     (forall d', In d' before -> holds_both d' = false) ->
     holds_both d = true ->
     CrossPlatform.findFalloutDataPath P st
     = (inr d, {| CrossPlatform._falloutDataPath := d;
                  CrossPlatform._dataFiles := CrossPlatform._dataFiles st |})) /\
  ((forall d, In d candidates -> holds_both d = false) ->
   CrossPlatform.findFalloutDataPath P st
   = (inl "Fallout data files are not found!"%string, st)) /\
  ((exists before d after,
      candidates = before ++ d :: after /\
      (forall d', In d' before -> holds_both d' = false) /\
      holds_both d = true) \/
   (forall d, In d candidates -> holds_both d = false)).
Proof.
  intros Hcold candidates holds_both. subst holds_both. cbn beta.
  unfold CrossPlatform.findFalloutDataPath. rewrite Hcold. cbn [String.length Nat.ltb Nat.leb].
  fold candidates.
  split; [ | split ].
  - intros before d after Hsplit Hbefore Hd.
    rewrite Hsplit, find_the_first; [ reflexivity | | ].
    + intros y Hy. rewrite all_exist_both. now apply Hbefore.
    + now rewrite all_exist_both.
  - intros Hnone.
    destruct (find (CrossPlatform.all_exist P) candidates) as [d0 | ] eqn:Hfind;
      [ | reflexivity ].
    apply find_some in Hfind. destruct Hfind as [Hin Hall].
    rewrite all_exist_both in Hall.
    rewrite (Hnone d0 Hin) in Hall. discriminate.
  - destruct (find (CrossPlatform.all_exist P) candidates) as [d0 | ] eqn:Hfind.
    + left. destruct (find_first _ _ _ _ Hfind) as (before & after & Hsplit & Hd & Hbefore).
      exists before, d0, after. split; [ assumption | ].
      split; [ | now rewrite <- all_exist_both ].
      intros d' Hd'. rewrite <- all_exist_both. now apply Hbefore.
    + right. intros d Hd. rewrite <- all_exist_both.
      apply (find_none _ _ Hfind d Hd).
Qed.

Lemma data_path_search_witness :
  CrossPlatform.findFalloutDataPath CrossPlatform.Sample.platform
    CrossPlatform.Sample.cold
  = (inr "/usr/share/falltergeist"%string,
     {| CrossPlatform._falloutDataPath := "/usr/share/falltergeist";
        CrossPlatform._dataFiles := [] |}).
Proof.
  apply (proj1 (data_path_search CrossPlatform.Sample.platform
                  CrossPlatform.Sample.cold eq_refl)
           ["/opt/falltergeist"; "/home/user/.local/share/falltergeist"]%string
           "/usr/share/falltergeist"%string []).
  - reflexivity.
  - intros d' [<- | [<- | []]]; reflexivity.
  - reflexivity.
Defined.

(** X15.  The cached answers are final.  Once [findFalloutDataPath] has
    answered with a non-empty path, and once [findFalloutDataFiles] has
    answered at all, every later call gives the same answer and leaves
    the static members alone, whatever the file system has become.  (An
    empty path is an answer that the cache cannot hold.) *)
Theorem cached_answers_are_final (P P' : CrossPlatform.Platform)
    (st : CrossPlatform.Statics) :
  (forall d st',
     CrossPlatform.findFalloutDataPath P st = (inr d, st') -> d <> ""%string ->
     CrossPlatform.findFalloutDataPath P' st' = (inr d, st')) /\
  (forall files st',
     CrossPlatform.findFalloutDataFiles P st = (inr files, st') ->
     CrossPlatform.findFalloutDataFiles P' st' = (inr files, st')).
Proof.
  split.
  - intros d st' H Hd. unfold CrossPlatform.findFalloutDataPath in H.
    assert (Hcached : forall s, CrossPlatform._falloutDataPath s = d ->
              CrossPlatform.findFalloutDataPath P' s = (inr d, s)).
    { intros s Hs. unfold CrossPlatform.findFalloutDataPath. rewrite Hs.
      destruct d as [ | c rest ]; [ contradiction | reflexivity ]. }
    destruct (0 <? String.length (CrossPlatform._falloutDataPath st))%nat.
    + injection H as <- <-. now apply Hcached.
    + destruct (find _ _) as [d0 | ]; [ | discriminate ].
      injection H as <- <-. now apply Hcached.
  - intros files st' H. unfold CrossPlatform.findFalloutDataFiles in H.
    destruct (CrossPlatform._dataFiles st) as [ | x rest ] eqn:Hcache.
    + destruct (CrossPlatform.findFalloutDataPath P st) as [[what | path] st1];
        [ discriminate | ].
      destruct (CrossPlatform.directory_entries P path) as [entries | ].
      * injection H as <- <-. rewrite fold_keep_patch.
        unfold CrossPlatform.findFalloutDataFiles. cbn [CrossPlatform._dataFiles].
        destruct (rev _); reflexivity.
      * destruct (CrossPlatform.findFalloutDataPath P st1) as [[what | path2] st2];
          discriminate.
    + injection H as <- <-. unfold CrossPlatform.findFalloutDataFiles.
      now rewrite Hcache.
Qed.

Lemma cached_answers_are_final_witness :
  CrossPlatform.findFalloutDataPath CrossPlatform.Sample.bare
    {| CrossPlatform._falloutDataPath := "/usr/share/falltergeist";
       CrossPlatform._dataFiles := [] |}
  = (inr "/usr/share/falltergeist"%string,
     {| CrossPlatform._falloutDataPath := "/usr/share/falltergeist";
        CrossPlatform._dataFiles := [] |}).
Proof.
  apply (proj1 (cached_answers_are_final CrossPlatform.Sample.platform
                  CrossPlatform.Sample.bare CrossPlatform.Sample.cold)).
  - reflexivity.
  - discriminate.
Defined.

(** ** [createDirectory] *)

Section CreateDirectory.

Import CrossPlatform.

Local Open Scope string_scope.

Lemma string_app_assoc (a b c : string) : (a ++ b) ++ c = a ++ (b ++ c).
Proof.
  induction a as [ | x a IH ]; cbn; [ reflexivity | now rewrite IH ].
Qed.

Lemma string_app_nil_r (a : string) : a ++ "" = a.
Proof.
  induction a as [ | x a IH ]; cbn; [ reflexivity | now rewrite IH ].
Qed.

Lemma string_length_snoc (a : string) (x : Ascii.ascii) :
  String.length (a ++ String x "") = S (String.length a).
Proof.
  induction a as [ | y a IH ]; cbn; [ reflexivity | now rewrite IH ].
Qed.

Lemma find_first_of_end (c : Ascii.ascii) (s : string) :
  find_first_of c (String.length s) s = None.
Proof.
  induction s as [ | x s IH ]; cbn; [ reflexivity | now rewrite IH ].
Qed.

Lemma find_first_of_at (c x : Ascii.ascii) (done rest : string) :
  find_first_of c (String.length done) (done ++ String x rest) =
    if Ascii.eqb x c then Some (String.length done)
    else find_first_of c (S (String.length done)) (done ++ String x rest).
Proof.
  induction done as [ | y done IH ].
  - cbn. destruct (Ascii.eqb x c); reflexivity.
  - cbn [String.length append find_first_of]. rewrite IH.
    destruct (Ascii.eqb x c); reflexivity.
Qed.

Lemma set_char_at (z x : Ascii.ascii) (done rest : string) :
  set_char (String.length done) z (done ++ String x rest) = done ++ String z rest.
Proof.
  induction done as [ | y done IH ]; cbn; [ reflexivity | now rewrite IH ].
Qed.

Lemma c_str_cut (done rest : string) :
  c_str (done ++ String NUL rest) = c_str done.
Proof.
  induction done as [ | y done IH ]; cbn; [ reflexivity | ].
  rewrite IH. reflexivity.
Qed.

Lemma c_str_fixed (s : string) :
  (forall a b, s <> a ++ String NUL b) -> c_str s = s.
Proof.
  induction s as [ | x s IH ]; intros H; cbn; [ reflexivity | ].
  destruct (Ascii.eqb x NUL) eqn:Hx.
  - apply Ascii.eqb_eq in Hx. subst x. exfalso. now apply (H "" s).
  - rewrite IH; [ reflexivity | ].
    intros a b E. apply (H (String x a) b). cbn. now rewrite E.
Qed.

Variable F : FileSystem.

Lemma create_loop_from (rest : string) :
  forall (done : string) (fuel : nat) (fs : FS F),
    done <> "" ->
    (String.length rest <= fuel)%nat ->
    create_loop F fuel (done ++ rest)
      (find_first_of slash (String.length done) (done ++ rest)) fs
    = Some (create_all F
              (map c_str (ancestors_from done rest ++ [done ++ rest])) fs).
Proof.
  induction rest as [ | x rest IH ]; intros done fuel fs Hdone Hfuel.
  - rewrite string_app_nil_r, find_first_of_end.
    destruct fuel; cbn; destruct (_createDirectory F (c_str done) fs) as [[what | b] fs'];
      reflexivity.
  - assert (Hnext : (done ++ String x "") ++ rest = done ++ String x rest).
    { now rewrite string_app_assoc. }
    assert (Hnonempty : done ++ String x "" <> "").
    { destruct done; discriminate. }
    assert (Hdone' : (done =? "") = false).
    { destruct done; [ contradiction | reflexivity ]. }
    rewrite find_first_of_at. cbn [ancestors_from]. rewrite Hdone'. cbn [negb].
    rewrite andb_true_r.
    destruct (Ascii.eqb x slash) eqn:Hx.
    + apply Ascii.eqb_eq in Hx. subst x.
      destruct fuel as [ | fuel ]; [ cbn in Hfuel; lia | ].
      cbn [create_loop app map]. cbv zeta.
      rewrite !set_char_at, c_str_cut.
      cbn [create_all].
      destruct (_createDirectory F (c_str done) fs) as [[what | b] fs'];
        [ reflexivity | ].
      specialize (IH (done ++ String slash "") fuel fs' Hnonempty).
      rewrite Hnext, string_length_snoc in IH.
      rewrite Nat.add_1_r. apply IH. cbn in Hfuel. lia.
    + cbn [app].
      specialize (IH (done ++ String x "") fuel fs Hnonempty).
      rewrite Hnext, string_length_snoc in IH.
      apply IH. cbn in Hfuel. lia.
Qed.

Lemma createDirectory_calls (path : string) (fs : FS F) :
  createDirectory F path fs
  = Some (create_all F (map c_str (ancestors path ++ [path])) fs).
Proof.
  unfold createDirectory, ancestors.
  destruct path as [ | x rest ].
  - cbn. destruct (_createDirectory F "" fs) as [[what | b] fs']; reflexivity.
  - cbn [ancestors_from String.eqb negb]. rewrite andb_false_r. cbn [app append].
    apply (create_loop_from rest (String x "") (String.length (String x rest)) fs).
    + discriminate.
    + cbn. lia.
Qed.

Lemma ancestors_from_spec (rest : string) :
  forall (done p : string),
    In p (ancestors_from done rest) <->
    p <> "" /\ exists pre post, rest = pre ++ String slash post /\ p = done ++ pre.
Proof.
  induction rest as [ | x rest IH ]; intros done p.
  - cbn. split; [ intros [] | ].
    intros (_ & pre & post & E & _). destruct pre; discriminate.
  - cbn [ancestors_from]. rewrite in_app_iff, IH. split.
    + intros [H | (Hp & pre & post & -> & ->)].
      * destruct (Ascii.eqb x slash) eqn:Hx; [ | destruct H ].
        destruct (done =? "") eqn:Hd; [ destruct H | ].
        cbn in H. destruct H as [<- | []].
        apply Ascii.eqb_eq in Hx. subst x.
        split; [ intros ->; discriminate | ].
        exists "", rest. split; [ reflexivity | now rewrite string_app_nil_r ].
      * split; [ assumption | ].
        exists (String x pre), post. split; [ reflexivity | ].
        now rewrite string_app_assoc.
    + intros (Hp & pre & post & E & ->).
      destruct pre as [ | y pre ]; cbn in E; injection E as -> ->.
      * left. rewrite string_app_nil_r in Hp |- *.
        rewrite Ascii.eqb_refl.
        destruct done; [ contradiction | now left ].
      * right. split; [ assumption | ].
        exists pre, post. split; [ reflexivity | ].
        now rewrite string_app_assoc.
Qed.

Lemma create_all_existing (dirs rest : list string) (fs : FS F) :
  (forall q, In q dirs -> stat F q fs = Some true) ->
  create_all F (dirs ++ rest) fs = create_all F rest fs.
Proof.
  induction dirs as [ | d dirs IH ]; intros H; [ reflexivity | ].
  cbn [app create_all]. unfold _createDirectory at 1.
  rewrite (H d (or_introl eq_refl)).
  apply IH. intros q Hq. apply H. now right.
Qed.

End CreateDirectory.

(** X16.  [createDirectory] calls [_createDirectory] on every ancestor
    of the path, outermost first, and then on the path itself, each
    name read as a C string, and stops at the first exception.  The
    loop always ends.  The ancestors are the non-empty beginnings of the
    path that a [/] follows, so a leading [/] is not created. *)
Theorem createDirectory_walks_the_ancestors (F : CrossPlatform.FileSystem)
    (path : string) (fs : CrossPlatform.FS F) :
  CrossPlatform.createDirectory F path fs
  = Some (CrossPlatform.create_all F
            (map CrossPlatform.c_str (CrossPlatform.ancestors path ++ [path])) fs) /\
  (forall p, In p (CrossPlatform.ancestors path) <->
     p <> ""%string /\
     exists rest, path = (p ++ String CrossPlatform.slash rest)%string) /\
  ((forall a b, path <> (a ++ String CrossPlatform.NUL b)%string) ->
   forall p, In p (CrossPlatform.ancestors path ++ [path]) -> CrossPlatform.c_str p = p).
Proof.
  split; [ apply createDirectory_calls | ].
  assert (Hspec : forall p, In p (CrossPlatform.ancestors path) <->
     p <> ""%string /\
     exists rest, path = (p ++ String CrossPlatform.slash rest)%string).
  { intros p. unfold CrossPlatform.ancestors. rewrite ancestors_from_spec.
    split.
    - intros (Hp & pre & post & -> & ->). split; [ assumption | now exists post ].
    - intros (Hp & rest & ->). split; [ assumption | now exists p, rest ]. }
  split; [ exact Hspec | ].
  intros Hnul p Hp. apply c_str_fixed. intros a b ->.
  apply in_app_iff in Hp. destruct Hp as [Hp | [E | []]].
  - apply Hspec in Hp. destruct Hp as (_ & rest & E).
    apply (Hnul a (b ++ String CrossPlatform.slash rest)%string).
    rewrite E. now rewrite string_app_assoc.
  - now apply (Hnul a b).
Qed.

(** X17.  On a tree that is already there, [createDirectory] does
    nothing: when every ancestor and the path itself are directories, it
    returns without an exception and the file system is as before. *)
Theorem createDirectory_of_existing_tree (F : CrossPlatform.FileSystem)
    (path : string) (fs : CrossPlatform.FS F) :
  (forall q, In q (map CrossPlatform.c_str (CrossPlatform.ancestors path ++ [path])) ->
     CrossPlatform.stat F q fs = Some true) ->
  CrossPlatform.createDirectory F path fs = Some (None, fs).
Proof.
  intros H. rewrite createDirectory_calls.
  rewrite <- (app_nil_r (map _ _)).
  now rewrite create_all_existing.
Qed.

Lemma createDirectory_of_existing_tree_witness :
  CrossPlatform.createDirectory CrossPlatform.Sample.directories "/var/lib/game"
    ["/var"; "/var/lib"; "/var/lib/game"]%string
  = Some (None, ["/var"; "/var/lib"; "/var/lib/game"]%string).
Proof.
  apply (createDirectory_of_existing_tree CrossPlatform.Sample.directories).
  intros q Hq. cbn in Hq.
  destruct Hq as [<- | [<- | [<- | []]]]; reflexivity.
Defined.

(** X18.  [createDirectory] stops at a name that exists and is not a
    directory: when the names before it are directories, the exception
    carries that name, nothing after it is tried and the file system is
    as before. *)
Theorem createDirectory_stops_at_a_file (F : CrossPlatform.FileSystem)
    (path : string) (fs : CrossPlatform.FS F) (before after : list string)
    (p : string) :
  map CrossPlatform.c_str (CrossPlatform.ancestors path ++ [path])
  = before ++ p :: after ->
  (forall q, In q before -> CrossPlatform.stat F q fs = Some true) ->
  CrossPlatform.stat F p fs = Some false ->
  CrossPlatform.createDirectory F path fs
  = Some (Some ("Path `" ++ p ++ "' already exists and is not a directory")%string, fs).
Proof.
  intros Hnames Hbefore Hp. rewrite createDirectory_calls, Hnames.
  rewrite create_all_existing by assumption.
  cbn [CrossPlatform.create_all]. unfold CrossPlatform._createDirectory.
  now rewrite Hp.
Qed.

Lemma createDirectory_stops_at_a_file_witness :
  CrossPlatform.createDirectory CrossPlatform.Sample.with_a_file "/var/lib/game"
    ["/var"]%string
  = Some (Some "Path `/var/lib' already exists and is not a directory"%string,
          ["/var"]%string).
Proof.
  apply (createDirectory_stops_at_a_file CrossPlatform.Sample.with_a_file
           "/var/lib/game" ["/var"]%string ["/var"]%string ["/var/lib/game"]%string
           "/var/lib"%string).
  - reflexivity.
  - intros q [<- | []]. reflexivity.
  - reflexivity.
Defined.
